(** * goworker: lifecycle, connection acquisition and orchestration

    A shallow embedding of [goworker.go]: the package-level variables become
    one [State] record that every function takes and returns, calls on the
    external collaborators (the vitess resource pool, seelog, the poller and
    the workers) are appended to a chronological [trace], and what those
    collaborators answer is read from an environment record [Env]. *)

From Stdlib Require Import ZArith List String Bool Lia Arith DecimalString.
From Stdlib Require Import Permutation DecimalZ.
Import ListNotations.
Open Scope Z_scope.

(** ** Go's [int] *)

Module GoInt.

(** [int] on the 64-bit platforms: two's complement, silent wrap-around. *)
Definition int_bits : Z := 64.
Definition min_int : Z := - 2 ^ (int_bits - 1).
Definition max_int : Z := 2 ^ (int_bits - 1) - 1.

Definition in_range (x : Z) : Prop := min_int <= x <= max_int.

Definition wrap (x : Z) : Z := (x - min_int) mod 2 ^ int_bits + min_int.

Definition add (a b : Z) : Z := wrap (a + b).
Definition sub (a b : Z) : Z := wrap (a - b).

End GoInt.

(** [strconv.Itoa]: the decimal rendering of an [int]. *)
Definition Itoa (i : Z) : string := NilZero.string_of_int (Z.to_int i).

(** ** Errors *)

(** A Go [error] value.  The only thing [getConn] asks of an error is whether
    its dynamic type implements [net.Error] and, if so, what [Timeout()]
    answers; [plainError] stands for every error that is not a [net.Error]
    (those built by [errors.New] among them). *)
Inductive error : Type :=
| plainError (msg : string)
| netError (msg : string) (timeout : bool).

Definition errors_New (msg : string) : error := plainError msg.

(** [nerr, ok := err.(net.Error); ok && nerr.Timeout()] *)
Definition is_net_timeout (err : error) : bool :=
  match err with
  | netError _ timeout => timeout
  | plainError _ => false
  end.

(** A Go return pair [(value, error)] in which exactly one side is set. *)
Inductive result (A : Type) : Type :=
| Ok (a : A)
| Err (err : error).
Arguments Ok {A} a.
Arguments Err {A} err.

(** ** Settings *)

Definition queuesFlag : Type := list string.
Definition intervalFlag : Type := Z.      (* nanoseconds *)
Definition Duration : Type := Z.          (* nanoseconds *)
Definition float64 : Type := Z.           (* the IEEE-754 bit pattern *)

Definition time_Second : Duration := 1000000000.
Definition time_Minute : Duration := 60 * time_Second.

Record RedisSettings : Type := mkRedisSettings {
  rs_URI : string;
  rs_Host : string;
  rs_DB : string;
  rs_Scheme : string;
  rs_MasterName : string;
  rs_Sentinels : list string;
  rs_Timeout : Duration;
  rs_Password : string
}.

Record WorkerSettings : Type := mkWorkerSettings {
  QueuesString : string;
  Queues : queuesFlag;
  IntervalFloat : float64;
  Interval : intervalFlag;
  Concurrency : Z;
  Connections : Z;
  URI : string;
  Namespace : string;
  ExitOnComplete : bool;
  IsStrict : bool;
  UseNumber : bool;
  RedisSettings_ : RedisSettings
}.

(** [rs.URI = uri] *)
Definition set_rs_URI (uri : string) (rs : RedisSettings) : RedisSettings :=
  {| rs_URI := uri;
     rs_Host := rs_Host rs;
     rs_DB := rs_DB rs;
     rs_Scheme := rs_Scheme rs;
     rs_MasterName := rs_MasterName rs;
     rs_Sentinels := rs_Sentinels rs;
     rs_Timeout := rs_Timeout rs;
     rs_Password := rs_Password rs |}.

(** [ws.RedisSettings = rs] *)
Definition set_RedisSettings (rs : RedisSettings) (ws : WorkerSettings)
  : WorkerSettings :=
  {| QueuesString := QueuesString ws;
     Queues := Queues ws;
     IntervalFloat := IntervalFloat ws;
     Interval := Interval ws;
     Concurrency := Concurrency ws;
     Connections := Connections ws;
     URI := URI ws;
     Namespace := Namespace ws;
     ExitOnComplete := ExitOnComplete ws;
     IsStrict := IsStrict ws;
     UseNumber := UseNumber ws;
     RedisSettings_ := rs |}.

(** [ws.URI = uri] *)
Definition set_URI (uri : string) (ws : WorkerSettings) : WorkerSettings :=
  {| QueuesString := QueuesString ws;
     Queues := Queues ws;
     IntervalFloat := IntervalFloat ws;
     Interval := Interval ws;
     Concurrency := Concurrency ws;
     Connections := Connections ws;
     URI := uri;
     Namespace := Namespace ws;
     ExitOnComplete := ExitOnComplete ws;
     IsStrict := IsStrict ws;
     UseNumber := UseNumber ws;
     RedisSettings_ := RedisSettings_ ws |}.

(** ** External objects *)

Inductive Logger : Type := stdoutInfoLogger.
Inductive Context : Type := context_Background.
Inductive RedisConn : Type := redisConn (handle : nat).
Inductive QuitChan : Type := quitChan.

(** Modelled from the spec: [newRedisPool] (redis.go, not part of the file
    verified here) builds the pool of the vitess library; the pool object is
    represented by the arguments it was built from: the store address, the
    capacity, the maximal capacity and the idle lifetime. *)
Record ResourcePool : Type := mkResourcePool {
  rp_settings : RedisSettings;
  rp_capacity : Z;
  rp_maxCap : Z;
  rp_idleTimeout : Duration
}.

Definition newRedisPool (rs : RedisSettings) (capacity maxCapacity : Z)
  (idleTimeout : Duration) : ResourcePool :=
  mkResourcePool rs capacity maxCapacity idleTimeout.

(** What one [pool.Get(ctx)] answers: an error, or a resource, which the pool's
    factory always makes a [*RedisConn]. *)
Inductive Checkout : Type :=
| GetErr (err : error)
| GetOk (conn : RedisConn).

Record poller : Type := mkPoller {
  poller_queues : queuesFlag;
  poller_isStrict : bool
}.

Record worker : Type := mkWorker {
  worker_id : string;
  worker_queues : queuesFlag
}.

(** The channel [poller.poll(interval, quit)] returns. *)
Record JobStream : Type := mkJobStream {
  js_poller : poller;
  js_interval : Duration;
  js_quit : QuitChan
}.

(** The [sync.WaitGroup] local to one [Work] invocation. *)
Inductive WaitGroup : Type := monitor.

(** ** Calls on the collaborators *)

Inductive Event : Type :=
| EvLoggerFromWriter
| EvFlags
| EvNewRedisPool (p : ResourcePool)
| EvPoolGet
| EvValidate (conn : RedisConn)
| EvConnClose (conn : RedisConn)
| EvPoolPut (resource : option RedisConn)
| EvPoolClose (p : option ResourcePool)
| EvSignals
| EvNewPoller (queues : queuesFlag) (isStrict : bool)
| EvPoll (p : poller) (interval : Duration)
| EvNewWorker (id : string) (queues : queuesFlag)
| EvWork (w : worker) (jobs : JobStream) (wg : WaitGroup)
| EvWait (wg : WaitGroup).

(** ** The package-level variables *)

Record State : Type := mkState {
  logger : option Logger;
  pool : option ResourcePool;
  ctx : option Context;
  initialized : bool;
  workerSettings : WorkerSettings;
  trace : list Event
}.

Definition set_logger (l : option Logger) (s : State) : State :=
  mkState l (pool s) (ctx s) (initialized s) (workerSettings s) (trace s).
Definition set_pool (p : option ResourcePool) (s : State) : State :=
  mkState (logger s) p (ctx s) (initialized s) (workerSettings s) (trace s).
Definition set_ctx (c : option Context) (s : State) : State :=
  mkState (logger s) (pool s) c (initialized s) (workerSettings s) (trace s).
Definition set_initialized (b : bool) (s : State) : State :=
  mkState (logger s) (pool s) (ctx s) b (workerSettings s) (trace s).
Definition set_workerSettings (ws : WorkerSettings) (s : State) : State :=
  mkState (logger s) (pool s) (ctx s) (initialized s) ws (trace s).
Definition emit (ev : Event) (s : State) : State :=
  mkState (logger s) (pool s) (ctx s) (initialized s) (workerSettings s)
          (trace s ++ [ev]).

Definition is_get (ev : Event) : bool :=
  match ev with EvPoolGet => true | _ => false end.
Definition is_newpool (ev : Event) : bool :=
  match ev with EvNewRedisPool _ => true | _ => false end.
Definition is_poolclose (ev : Event) : bool :=
  match ev with EvPoolClose _ => true | _ => false end.

Definition count (f : Event -> bool) (s : State) : nat :=
  List.length (filter f (trace s)).

(** The number of checkouts the process has asked of the pool so far. *)
Definition checkouts (s : State) : nat := count is_get s.
Definition pools_built (s : State) : nat := count is_newpool s.
Definition pools_closed (s : State) : nat := count is_poolclose s.

(** ** The environment *)

(** What the collaborators answer.  [flags], [isSentinelConnection],
    [validateConnection], [newPoller] and [newWorker] are functions of the
    package that live in other files; they are taken as they are called here.
    [pool_Get k] is the answer of the pool to the process's checkout number
    [k] (counted from 0). *)
Record Env : Type := mkEnv {
  LoggerFromWriterWithMinLevel : result Logger;
  flags : WorkerSettings -> option error * WorkerSettings;
  isSentinelConnection : WorkerSettings -> bool;
  pool_Get : nat -> Checkout;
  validateConnection : RedisConn -> bool;
  newPoller : queuesFlag -> bool -> result poller;
  newWorker : string -> queuesFlag -> result worker
}.

(** ** Configuration *)

Definition SetSettings (settings : WorkerSettings) (s : State) : State :=
  set_workerSettings settings s.

Definition SetRedisSettings (redisSettings : RedisSettings) (s : State)
  : State :=
  set_workerSettings (set_RedisSettings redisSettings (workerSettings s)) s.

Section Goworker.

Variable E : Env.

(** ** Lifecycle *)

(** [initMutex] is held from entry to return; in a sequential run locking
    and unlocking leave nothing behind, so the mutex has no field. *)
Definition Init (s : State) : option error * State :=
  if negb (initialized s) then
    match LoggerFromWriterWithMinLevel E with
    | Err e => (Some e, emit EvLoggerFromWriter (set_logger None s))
    | Ok lg =>
      let s := emit EvLoggerFromWriter (set_logger (Some lg) s) in
      let '(err, ws) := flags E (workerSettings s) in
      let s := emit EvFlags (set_workerSettings ws s) in
      match err with
      | Some e => (Some e, s)
      | None =>
        let s := set_ctx (Some context_Background) s in
        let s :=
          if negb (String.eqb (URI (workerSettings s)) EmptyString) then
            set_workerSettings
              (set_RedisSettings
                 (set_rs_URI (URI (workerSettings s))
                             (RedisSettings_ (workerSettings s)))
                 (workerSettings s)) s
          else s in
        let p := newRedisPool (RedisSettings_ (workerSettings s))
                              (Connections (workerSettings s))
                              (Connections (workerSettings s))
                              time_Minute in
        let s := emit (EvNewRedisPool p) (set_pool (Some p) s) in
        (None, set_initialized true s)
      end
    end
  else (None, s).

Definition Close (s : State) : State :=
  if initialized s then
    set_initialized false (emit (EvPoolClose (pool s)) s)
  else s.

(** ** Connection acquisition *)

Definition GetResult : Type := (option RedisConn * option error)%type.

(** [getConn], with the recursion driven by [fuel]; [None] only when the
    fuel runs out before the function returns. *)
Fixpoint getConn_fuel (fuel : nat) (attemptsLeft : Z) (s : State)
  : option (GetResult * State) :=
  if attemptsLeft <=? 0 then
    Some ((None, Some (errors_New "Unable to get connection")), s)
  else
    match fuel with
    | O => None
    | S fuel' =>
      let k := checkouts s in
      let s := emit EvPoolGet s in
      match pool_Get E k with
      | GetErr err =>
        if is_net_timeout err then
          getConn_fuel fuel' (GoInt.sub attemptsLeft 1) s
        else Some ((None, Some err), s)
      | GetOk conn =>
        let ok := validateConnection E conn in
        let s := emit (EvValidate conn) s in
        if negb ok then
          let s := emit (EvConnClose conn) s in
          let s := emit (EvPoolPut None) s in
          getConn_fuel fuel' (GoInt.sub attemptsLeft 1) s
        else Some ((Some conn, None), s)
      end
    end.

Definition getConn (attemptsLeft : Z) (s : State)
  : option (GetResult * State) :=
  getConn_fuel (Z.to_nat attemptsLeft) attemptsLeft s.

(** The local variable [connectionAttempts] of [GetConn]. *)
Definition connectionAttempts (s : State) : Z :=
  if isSentinelConnection E (workerSettings s) then
    GoInt.add (Connections (workerSettings s)) 1
  else 1.

Definition GetConn (s : State) : option (GetResult * State) :=
  getConn (connectionAttempts s) s.

Definition PutConn (conn : RedisConn) (s : State) : State :=
  emit (EvPoolPut (Some conn)) s.

End Goworker.

(** ** Orchestration *)

(** Where the goroutine that runs [Work] stands. *)
Inductive Pc : Type :=
| AtEntry
| AtLoop (jobs : JobStream) (id : Z)
| AtWait
| Returned (err : option error).

(** One [Work] invocation together with the workers it has started:
    [wg_counter] is the counter of [monitor]; [started] lists the workers in
    the order [worker.work] was called on them, [running] those that have not
    left yet and [signaled] those that have called [monitor.Done()]. *)
Record Sys : Type := mkSys {
  st : State;
  pc : Pc;
  wg_counter : Z;
  started : list worker;
  running : list worker;
  signaled : list worker;
  quit_fired : bool
}.

Definition Work_entry (s : State) : Sys :=
  mkSys s AtEntry 0 [] [] [] false.

Definition goto (p : Pc) (s : State) (c : Sys) : Sys :=
  mkSys s p (wg_counter c) (started c) (running c) (signaled c)
        (quit_fired c).

(** Modelled from the spec: [worker.work] (worker.go, not part of the file
    verified here) registers the worker against the job stream and the
    completion barrier and starts it: the barrier counts one more and the
    worker runs from then on. *)
Definition worker_work (w : worker) (jobs : JobStream) (c : Sys) : Sys :=
  mkSys (emit (EvWork w jobs monitor) (st c)) (pc c) (wg_counter c + 1)
        (started c ++ [w]) (running c ++ [w]) (signaled c) (quit_fired c).

(** Modelled from the spec: a worker signals the completion barrier exactly
    once when it exits, whatever the cause; [before] and [after] are the
    running workers around the one that leaves. *)
Definition worker_exit (before : list worker) (w : worker)
  (after : list worker) (c : Sys) : Sys :=
  mkSys (st c) (pc c) (wg_counter c - 1) (started c) (before ++ after)
        (signaled c ++ [w]) (quit_fired c).

Definition fire_quit (c : Sys) : Sys :=
  mkSys (st c) (pc c) (wg_counter c) (started c) (running c) (signaled c)
        true.

Section Orchestrator.

Variable E : Env.

(** The next move of the goroutine running [Work]; [None] when it is
    blocked in [monitor.Wait()] or has returned.  [defer Close()] is
    registered once [Init] has succeeded, so every later return runs
    [Close] first. *)
Definition Work_step (c : Sys) : option Sys :=
  match pc c with
  | AtEntry =>
    match Init E (st c) with
    | (Some err, s) => Some (goto (Returned (Some err)) s c)
    | (None, s) =>
      let quit := quitChan in
      let s := emit EvSignals s in
      let s := emit (EvNewPoller (Queues (workerSettings s))
                                 (IsStrict (workerSettings s))) s in
      match newPoller E (Queues (workerSettings s))
                      (IsStrict (workerSettings s)) with
      | Err err => Some (goto (Returned (Some err)) (Close s) c)
      | Ok p =>
        let jobs := mkJobStream p (Interval (workerSettings s)) quit in
        let s := emit (EvPoll p (Interval (workerSettings s))) s in
        Some (goto (AtLoop jobs 0) s c)
      end
    end
  | AtLoop jobs id =>
    let s := st c in
    if id <? Concurrency (workerSettings s) then
      let s := emit (EvNewWorker (Itoa id) (Queues (workerSettings s))) s in
      match newWorker E (Itoa id) (Queues (workerSettings s)) with
      | Err err => Some (goto (Returned (Some err)) (Close s) c)
      | Ok w =>
        Some (worker_work w jobs (goto (AtLoop jobs (GoInt.add id 1)) s c))
      end
    else Some (goto AtWait s c)
  | AtWait =>
    if wg_counter c =? 0 then
      Some (goto (Returned None) (Close (emit (EvWait monitor) (st c))) c)
    else None
  | Returned _ => None
  end.

(** The goroutine of [Work] run on its own for at most [n] moves. *)
Fixpoint Work_run (n : nat) (c : Sys) : Sys :=
  match n with
  | O => c
  | S n' =>
    match Work_step c with
    | Some c' => Work_run n' c'
    | None => c
    end
  end.

(** All the goroutines together: [Work] moves, a running worker exits, or
    a termination signal arrives. *)
Inductive step : Sys -> Sys -> Prop :=
| step_Work c c' :
    Work_step c = Some c' -> step c c'
| step_exit c before w after :
    running c = before ++ w :: after ->
    step c (worker_exit before w after c)
| step_quit c :
    step c (fire_quit c).

Inductive reachable (c0 : Sys) : Sys -> Prop :=
| reach_here : reachable c0 c0
| reach_step c c' : reachable c0 c -> step c c' -> reachable c0 c'.

End Orchestrator.

(** ** Auxiliary definitions for the statements *)

(** The state after [n] further checkouts that left nothing but the request
    itself in the trace (as a checkout answered by a timeout does). *)
Fixpoint emit_gets (n : nat) (s : State) : State :=
  match n with
  | O => s
  | S n' => emit_gets n' (emit EvPoolGet s)
  end.

(** What [getConn] returns once the attempts are used up. *)
Definition exhausted : GetResult :=
  (None, Some (errors_New "Unable to get connection")).

(** The next [n] checkouts asked in state [s] all fail with a network
    timeout. *)
Definition times_out (E : Env) (s : State) (n : nat) : Prop :=
  forall i, (i < n)%nat ->
    exists err, pool_Get E (checkouts s + i) = GetErr err
                /\ is_net_timeout err = true.

(** The loop counter values [id], [id + 1], ..., [k] of them. *)
Fixpoint ids_from (id : Z) (k : nat) : list Z :=
  match k with
  | O => []
  | S k' => id :: ids_from (id + 1) k'
  end.

(** The worker identities [0], ..., [n - 1]. *)
Definition ids (n : Z) : list Z := ids_from 0 (Z.to_nat n).

Definition emit_all (evs : list Event) (s : State) : State :=
  fold_left (fun s ev => emit ev s) evs s.

(** What one turn of the loop of [Work] asks of the collaborators. *)
Definition worker_events (queues : queuesFlag) (jobs : JobStream)
  (mk : Z -> worker) (id : Z) : list Event :=
  [EvNewWorker (Itoa id) queues; EvWork (mk id) jobs monitor].

(** No worker construction fails. *)
Definition workers_constructible (E : Env) : Prop :=
  forall id queues, exists w, newWorker E id queues = Ok w.

(** Whenever this [Work] invocation has returned, none of the workers it
    started is still running. *)
Definition returns_after_workers (E : Env) (s : State) : Prop :=
  forall c r, reachable E (Work_entry s) c -> pc c = Returned r ->
              running c = [].

(** The completion barrier counts the running workers, every started worker
    is running or has signaled, a return of [Work] that went through
    [monitor.Wait()] finds nobody running, and when no worker construction
    fails a return with an error has started nobody. *)
Definition barrier_inv (E : Env) (c : Sys) : Prop :=
  wg_counter c = Z.of_nat (List.length (running c))
  /\ Permutation (started c) (running c ++ signaled c)
  /\ (pc c = AtEntry -> started c = [])
  /\ (pc c = Returned None -> running c = [])
  /\ (workers_constructible E ->
      forall err, pc c = Returned (Some err) -> started c = []).

(** How far the loop of [Work] has come, for an invocation entered in state
    [s] whose settings after [Init] are [ws]: at counter [id] the workers
    [0], ..., [id - 1] have been started, in this order. *)
Definition started_inv (s : State) (ws : WorkerSettings) (jobs : JobStream)
  (mk : Z -> worker) (c : Sys) : Prop :=
  match pc c with
  | AtEntry => st c = s /\ started c = []
  | AtLoop j id =>
    j = jobs /\ 0 <= id <= Z.max 0 (Concurrency ws)
    /\ workerSettings (st c) = ws /\ started c = map mk (ids id)
  | AtWait | Returned None => started c = map mk (ids (Concurrency ws))
  | Returned (Some _) => True
  end.

(** ** Sample processes

    Concrete settings, environments and states on which the statements below
    are exercised. *)

Definition sample_redis (sentinels : list string) : RedisSettings :=
  mkRedisSettings "redis://localhost:6379/" "localhost" "0" "redis"
                  "mymaster" sentinels time_Second "secret".

Definition sample_settings (concurrency connections : Z)
  (sentinels : list string) : WorkerSettings :=
  mkWorkerSettings "a,b" ["a"; "b"]%string 0 time_Second concurrency connections
                   EmptyString "resque:" false true false
                   (sample_redis sentinels).

(** An environment in which logging and flag parsing succeed, the store
    address counts as Sentinel when it lists monitor endpoints, and pollers
    are always built. *)
Definition sample_env (gets : nat -> Checkout) (valid : RedisConn -> bool)
  (nw : string -> queuesFlag -> result worker) : Env :=
  mkEnv (Ok stdoutInfoLogger)
        (fun ws => (None, ws))
        (fun ws => negb (Nat.eqb (List.length (rs_Sentinels (RedisSettings_ ws))) 0))
        gets valid
        (fun queues isStrict => Ok (mkPoller queues isStrict))
        nw.

Definition fresh (ws : WorkerSettings) : State :=
  mkState None None None false ws [].

(** The process after a first [Init]. *)
Definition booted (E : Env) (ws : WorkerSettings) : State :=
  snd (Init E (fresh ws)).

Definition timeout_error : error := netError "i/o timeout" true.
Definition refused_error : error := plainError "connection refused".

(** The pool times out [n] times, then hands out healthy connections. *)
Definition env_failover (n : nat) : Env :=
  sample_env (fun k => if (k <? n)%nat then GetErr timeout_error
                       else GetOk (redisConn k))
             (fun _ => true)
             (fun id queues => Ok (mkWorker id queues)).

(** The first connection handed out is dead, the later ones are healthy. *)
Definition env_stale : Env :=
  sample_env (fun k => GetOk (redisConn k))
             (fun c => match c with redisConn h => negb (Nat.eqb h 0) end)
             (fun id queues => Ok (mkWorker id queues)).

(** The store refuses every connection. *)
Definition env_refused : Env :=
  sample_env (fun _ => GetErr refused_error)
             (fun _ => true)
             (fun id queues => Ok (mkWorker id queues)).

(** The construction of the worker with identity 1 fails. *)
Definition env_worker_fails : Env :=
  sample_env (fun k => GetOk (redisConn k))
             (fun _ => true)
             (fun id queues =>
                if String.eqb id "1" then Err (plainError "no hostname")
                else Ok (mkWorker id queues)).

(** ** Programs over the package

    The calls a program makes on the package outside of [Work], run one after
    the other. *)

Inductive Call : Type :=
| CallSetSettings (settings : WorkerSettings)
| CallSetRedisSettings (redisSettings : RedisSettings)
| CallInit
| CallClose
| CallGetConn
| CallPutConn (conn : RedisConn).

Definition run_call (E : Env) (call : Call) (s : State) : State :=
  match call with
  | CallSetSettings settings => SetSettings settings s
  | CallSetRedisSettings redisSettings => SetRedisSettings redisSettings s
  | CallInit => snd (Init E s)
  | CallClose => Close s
  | CallGetConn =>
    match GetConn E s with
    | Some (_, s') => s'
    | None => s
    end
  | CallPutConn conn => PutConn conn s
  end.

Definition run_calls (E : Env) (calls : list Call) (s : State) : State :=
  fold_left (fun s call => run_call E call s) calls s.

(** Invariant I1/I2 on the package variables: an initialized process has a
    pool, every pool built has been closed except the one of an initialized
    process, and [Close] was never called on a nil pool. *)
Definition lifecycle_inv (s : State) : Prop :=
  (initialized s = true -> pool s <> None)
  /\ pools_built s = (pools_closed s + if initialized s then 1 else 0)%nat
  /\ Forall (fun ev => ev <> EvPoolClose None) (trace s).

Definition is_validate (ev : Event) : bool :=
  match ev with EvValidate _ => true | _ => false end.
Definition is_put (ev : Event) : bool :=
  match ev with EvPoolPut _ => true | _ => false end.
Definition is_conn_close (ev : Event) : bool :=
  match ev with EvConnClose _ => true | _ => false end.

(** The connections the pool has handed out (each one is validated once),
    the slots given back to it, and the connections closed by the package. *)
Definition handed_out (s : State) : nat := count is_validate s.
Definition given_back (s : State) : nat := count is_put s.
Definition conns_closed (s : State) : nat := count is_conn_close s.

(** The events [getConn] can append to the trace. *)
Definition is_acquisition (ev : Event) : bool :=
  match ev with
  | EvPoolGet | EvValidate _ | EvConnClose _ | EvPoolPut None => true
  | _ => false
  end.

(** From [s] to [s'] no package variable has changed and the trace has grown
    by events of connection acquisition only. *)
Definition acquires (s s' : State) : Prop :=
  logger s' = logger s
  /\ pool s' = pool s
  /\ ctx s' = ctx s
  /\ initialized s' = initialized s
  /\ workerSettings s' = workerSettings s
  /\ exists evs, trace s' = trace s ++ evs
                 /\ forallb is_acquisition evs = true.

(** Checkout number [k] is one [getConn] retries after: a timeout, or a
    connection that fails validation. *)
Definition retriable (E : Env) (k : nat) : bool :=
  match pool_Get E k with
  | GetErr err => is_net_timeout err
  | GetOk conn => negb (validateConnection E conn)
  end.

(** What the attempt made with checkout number [k] appends to the trace. *)
Definition attempt_events (E : Env) (k : nat) : list Event :=
  match pool_Get E k with
  | GetErr _ => [EvPoolGet]
  | GetOk conn =>
    if validateConnection E conn then [EvPoolGet; EvValidate conn]
    else [EvPoolGet; EvValidate conn; EvConnClose conn; EvPoolPut None]
  end.

(** The state after the next [n] attempts. *)
Definition after_attempts (E : Env) (n : nat) (s : State) : State :=
  emit_all (flat_map (attempt_events E) (seq (checkouts s) n)) s.

(** What [getConn] returns on an attempt it does not retry after. *)
Definition decided (E : Env) (k : nat) : GetResult :=
  match pool_Get E k with
  | GetErr err => (None, Some err)
  | GetOk conn => (Some conn, None)
  end.

(** The results of [newWorker] for the identities [ids], in order. *)
Definition constructed (E : Env) (queues : queuesFlag) (ids : list Z)
  (workers : list worker) : Prop :=
  Forall2 (fun id w => newWorker E (Itoa id) queues = Ok w) ids workers.

(** How far the loop of [Work] has come when worker constructions may fail:
    the started workers are the results of [newWorker] for [0], ..., [k - 1]
    for some [k] up to [Concurrency]. *)
Definition prefix_inv (E : Env) (s : State) (ws : WorkerSettings) (c : Sys)
  : Prop :=
  match pc c with
  | AtEntry => st c = s /\ started c = []
  | AtLoop _ id =>
    0 <= id <= Z.max 0 (Concurrency ws)
    /\ workerSettings (st c) = ws
    /\ constructed E (Queues ws) (ids id) (started c)
  | AtWait | Returned None =>
    constructed E (Queues ws) (ids (Concurrency ws)) (started c)
  | Returned (Some _) =>
    exists k, 0 <= k < Z.max 1 (Concurrency ws)
              /\ constructed E (Queues ws) (ids k) (started c)
  end.

(** The running workers [workers] leave one after the other, first come
    first gone. *)
Fixpoint drain (workers : list worker) (c : Sys) : Sys :=
  match workers with
  | [] => c
  | w :: rest => drain rest (worker_exit [] w rest c)
  end.

(** Flag parsing fails: no queue was given. *)
Definition env_no_queues : Env :=
  mkEnv (Ok stdoutInfoLogger)
        (fun ws => (Some (plainError "you must specify at least one queue"), ws))
        (fun _ => false)
        (fun k => GetOk (redisConn k))
        (fun _ => true)
        (fun queues isStrict => Ok (mkPoller queues isStrict))
        (fun id queues => Ok (mkWorker id queues)).

(** The poller cannot be built. *)
Definition env_no_poller : Env :=
  mkEnv (Ok stdoutInfoLogger)
        (fun ws => (None, ws))
        (fun _ => false)
        (fun k => GetOk (redisConn k))
        (fun _ => true)
        (fun queues isStrict => Err (plainError "no poller"))
        (fun id queues => Ok (mkWorker id queues)).

(** A timeout, then a dead connection, then healthy ones. *)
Definition env_flaky : Env :=
  sample_env (fun k => match k with
                       | O => GetErr timeout_error
                       | _ => GetOk (redisConn k)
                       end)
             (fun c => match c with redisConn h => negb (Nat.eqb h 1) end)
             (fun id queues => Ok (mkWorker id queues)).

(** A timeout, then a dead connection, then the store refuses. *)
Definition env_flaky_refused : Env :=
  sample_env (fun k => match k with
                       | O => GetErr timeout_error
                       | S O => GetOk (redisConn 1)
                       | _ => GetErr refused_error
                       end)
             (fun _ => false)
             (fun id queues => Ok (mkWorker id queues)).

(** * Properties *)

(** ** Arithmetic of [int] *)

Module GoIntFacts.
Import GoInt.

Lemma wrap_in_range x : in_range x -> wrap x = x.
Proof.
  unfold in_range, wrap, min_int, max_int, int_bits. intros H.
  rewrite Z.mod_small; lia.
Qed.

Lemma wrap_bounds x : in_range (wrap x).
Proof.
  unfold in_range, wrap, min_int, max_int, int_bits.
  pose proof (Z.mod_pos_bound (x - - 2 ^ (64 - 1)) (2 ^ 64) ltac:(lia)).
  lia.
Qed.

(** Wrapping never makes a non-negative number larger. *)
Lemma wrap_le x : 0 <= x -> wrap x <= x.
Proof.
  unfold wrap, min_int, int_bits. intros H.
  pose proof (Z.mod_le (x - - 2 ^ (64 - 1)) (2 ^ 64) ltac:(lia) ltac:(lia)).
  lia.
Qed.

Lemma sub_1_pos a : 0 < a -> a <= max_int -> sub a 1 = a - 1.
Proof.
  intros H1 H2. unfold sub. apply wrap_in_range.
  unfold in_range, min_int, max_int, int_bits in *. lia.
Qed.

(** The counter of [getConn] goes down at every recursive call. *)
Lemma sub_1_decreases a :
  0 < a -> (Z.to_nat (sub a 1) < Z.to_nat a)%nat.
Proof.
  intros H. unfold sub.
  pose proof (wrap_le (a - 1) ltac:(lia)). lia.
Qed.

Lemma add_1_no_overflow c : min_int <= c < max_int -> add c 1 = c + 1.
Proof.
  intros H. unfold add. apply wrap_in_range.
  unfold in_range, min_int, max_int, int_bits in *. lia.
Qed.

End GoIntFacts.

(** ** The trace *)

Lemma count_emit f ev s :
  count f (emit ev s) = (count f s + if f ev then 1 else 0)%nat.
Proof.
  unfold count, emit; simpl. rewrite filter_app, length_app; simpl.
  destruct (f ev); reflexivity.
Qed.

Lemma checkouts_emit_get s : checkouts (emit EvPoolGet s) = S (checkouts s).
Proof. unfold checkouts. rewrite count_emit; simpl. lia. Qed.

Lemma checkouts_emit_other ev s :
  is_get ev = false -> checkouts (emit ev s) = checkouts s.
Proof. intros H. unfold checkouts. rewrite count_emit, H. lia. Qed.

Lemma checkouts_emit_gets n s :
  checkouts (emit_gets n s) = (checkouts s + n)%nat.
Proof.
  revert s; induction n as [|n IH]; intros s; simpl.
  - lia.
  - rewrite IH, checkouts_emit_get. lia.
Qed.

Lemma workerSettings_emit_gets n s :
  workerSettings (emit_gets n s) = workerSettings s.
Proof. revert s; induction n as [|n IH]; intros s; simpl; [|rewrite IH]; reflexivity. Qed.

(** ** Connection acquisition *)

Section Acquisition.

Variable E : Env.

(** With the counter at or below zero nothing is asked of the pool. *)
Lemma getConn_fuel_exhausted fuel a s :
  a <= 0 -> getConn_fuel E fuel a s = Some (exhausted, s).
Proof.
  intros H. destruct fuel; simpl;
    destruct (Z.leb_spec a 0); try lia; reflexivity.
Qed.

(** Fuel beyond the counter is never used. *)
Lemma getConn_fuel_enough fuel :
  forall a s, (Z.to_nat a <= fuel)%nat ->
    getConn_fuel E fuel a s = getConn E a s
    /\ exists r, getConn E a s = Some r.
Proof.
  induction fuel as [fuel IH] using lt_wf_ind. intros a s Hf.
  destruct (Z.leb_spec a 0) as [Ha|Ha].
  - unfold getConn. rewrite !getConn_fuel_exhausted by assumption. eauto.
  - pose proof (GoIntFacts.sub_1_decreases a Ha) as Hdec.
    unfold getConn.
    destruct fuel as [|fuel]; [lia|].
    destruct (Z.to_nat a) as [|n] eqn:Hn; [lia|].
    cbn [getConn_fuel].
    destruct (Z.leb_spec a 0); [lia|].
    assert (Hrec : forall s', getConn_fuel E fuel (GoInt.sub a 1) s'
                              = getConn_fuel E n (GoInt.sub a 1) s'
                              /\ exists r, getConn_fuel E n (GoInt.sub a 1) s' = Some r).
    { intros s'.
      destruct (IH fuel ltac:(lia) (GoInt.sub a 1) s' ltac:(lia)) as [E1 _].
      destruct (IH n ltac:(lia) (GoInt.sub a 1) s' ltac:(lia)) as [E2 [r Hr]].
      rewrite E1, E2. split; [reflexivity|]. eauto. }
    destruct (pool_Get E (checkouts s)) as [err|conn].
    + destruct (is_net_timeout err); [apply Hrec | eauto].
    + destruct (validateConnection E conn); simpl; [eauto | apply Hrec].
Qed.

(** [getConn] as the source reads: the recursive calls are calls of
    [getConn] itself. *)
Lemma getConn_unfold a s :
  getConn E a s =
  if a <=? 0 then Some (exhausted, s)
  else
    let s1 := emit EvPoolGet s in
    match pool_Get E (checkouts s) with
    | GetErr err =>
      if is_net_timeout err then getConn E (GoInt.sub a 1) s1
      else Some ((None, Some err), s1)
    | GetOk conn =>
      let s2 := emit (EvValidate conn) s1 in
      if negb (validateConnection E conn) then
        getConn E (GoInt.sub a 1)
                (emit (EvPoolPut None) (emit (EvConnClose conn) s2))
      else Some ((Some conn, None), s2)
    end.
Proof.
  destruct (Z.leb_spec a 0) as [Ha|Ha].
  - unfold getConn. apply getConn_fuel_exhausted; assumption.
  - pose proof (GoIntFacts.sub_1_decreases a Ha) as Hdec.
    unfold getConn at 1.
    destruct (Z.to_nat a) as [|n] eqn:Hn; [lia|].
    cbn [getConn_fuel]. destruct (Z.leb_spec a 0); [lia|].
    cbv zeta.
    destruct (pool_Get E (checkouts s)) as [err|conn].
    + destruct (is_net_timeout err); [|reflexivity].
      apply getConn_fuel_enough; lia.
    + destruct (validateConnection E conn); simpl; [reflexivity|].
      apply getConn_fuel_enough; lia.
Qed.

Lemma getConn_total a s : exists r s', getConn E a s = Some (r, s').
Proof.
  destruct (getConn_fuel_enough (Z.to_nat a) a s (le_n _)) as [_ [[r s'] H]].
  eauto.
Qed.

(** Induction on the counter, following the recursive calls. *)
Lemma getConn_ind (P : Z -> State -> Prop) :
  (forall a s, a <= 0 -> P a s) ->
  (forall a s, 0 < a ->
     (forall s', P (GoInt.sub a 1) s') -> P a s) ->
  forall a s, P a s.
Proof.
  intros H0 HS a.
  remember (Z.to_nat a) as n eqn:Hn. revert a Hn.
  induction n as [n IH] using lt_wf_ind. intros a Hn s.
  destruct (Z.leb_spec a 0) as [Ha|Ha]; [auto|].
  apply HS; [assumption|]. intros s'.
  pose proof (GoIntFacts.sub_1_decreases a Ha).
  apply (IH (Z.to_nat (GoInt.sub a 1))); [lia | reflexivity].
Qed.

Lemma getConn_attempts_bound a s r s' :
  getConn E a s = Some (r, s') ->
  (checkouts s <= checkouts s' <= checkouts s + Z.to_nat a)%nat.
Proof.
  revert r s'. pattern a, s. apply getConn_ind; clear a s.
  - intros a s Ha r s' H. rewrite getConn_unfold in H.
    destruct (Z.leb_spec a 0); [|lia]. inversion H; subst. lia.
  - intros a s Ha IH r s' H. rewrite getConn_unfold in H.
    destruct (Z.leb_spec a 0); [lia|]. cbv zeta in H.
    pose proof (GoIntFacts.sub_1_decreases a Ha) as Hdec.
    destruct (pool_Get E (checkouts s)) as [err|conn].
    + destruct (is_net_timeout err).
      * apply IH in H. rewrite checkouts_emit_get in H. lia.
      * inversion H; subst. rewrite checkouts_emit_get. lia.
    + destruct (validateConnection E conn); simpl in H.
      * inversion H; subst.
        rewrite checkouts_emit_other, checkouts_emit_get by reflexivity. lia.
      * apply IH in H.
        rewrite !checkouts_emit_other, checkouts_emit_get in H
          by reflexivity.
        lia.
Qed.

(** Invariant I3: a connection handed to the caller has passed
    [validateConnection]. *)
Lemma getConn_returns_valid a s conn err s' :
  getConn E a s = Some ((Some conn, err), s') ->
  validateConnection E conn = true /\ err = None.
Proof.
  revert conn err s'. pattern a, s. apply getConn_ind; clear a s.
  - intros a s Ha conn err s' H. rewrite getConn_unfold in H.
    destruct (Z.leb_spec a 0); [|lia]. discriminate.
  - intros a s Ha IH conn err s' H. rewrite getConn_unfold in H.
    destruct (Z.leb_spec a 0); [lia|]. cbv zeta in H.
    destruct (pool_Get E (checkouts s)) as [e|c].
    + destruct (is_net_timeout e); [eauto | discriminate].
    + destruct (validateConnection E c) eqn:Hv; simpl in H.
      * inversion H; subst. auto.
      * eauto.
Qed.

Lemma getConn_after_timeouts n :
  forall a s,
    Z.of_nat n <= a <= GoInt.max_int ->
    times_out E s n ->
    getConn E a s = getConn E (a - Z.of_nat n) (emit_gets n s).
Proof.
  induction n as [|n IH]; intros a s Ha Ht.
  - simpl. f_equal. lia.
  - destruct (Ht 0%nat ltac:(lia)) as [err [Hg Hto]].
    rewrite Nat.add_0_r in Hg.
    rewrite getConn_unfold. destruct (Z.leb_spec a 0); [lia|].
    cbv zeta. rewrite Hg, Hto.
    rewrite GoIntFacts.sub_1_pos by lia.
    rewrite IH.
    + simpl emit_gets. f_equal. lia.
    + lia.
    + intros i Hi. destruct (Ht (S i) ltac:(lia)) as [e [He1 He2]].
      exists e. rewrite checkouts_emit_get.
      replace (S (checkouts s) + i)%nat with (checkouts s + S i)%nat by lia.
      auto.
Qed.

(** A call of [getConn] only appends to the trace. *)
Lemma getConn_trace_grows a s r s' :
  getConn E a s = Some (r, s') -> exists evs, trace s' = trace s ++ evs.
Proof.
  revert r s'. pattern a, s. apply getConn_ind; clear a s.
  - intros a s Ha r s' H. rewrite getConn_unfold in H.
    destruct (Z.leb_spec a 0); [|lia]. inversion H; subst.
    exists []. rewrite app_nil_r. reflexivity.
  - intros a s Ha IH r s' H. rewrite getConn_unfold in H.
    destruct (Z.leb_spec a 0); [lia|]. cbv zeta in H.
    destruct (pool_Get E (checkouts s)) as [e|c].
    + destruct (is_net_timeout e).
      * apply IH in H. destruct H as [evs H]. simpl in H.
        exists (EvPoolGet :: evs). rewrite H, <- app_assoc. reflexivity.
      * inversion H; subst. exists [EvPoolGet]. reflexivity.
    + destruct (validateConnection E c); simpl in H.
      * inversion H; subst. exists [EvPoolGet; EvValidate c]. simpl.
        rewrite <- app_assoc. reflexivity.
      * apply IH in H. destruct H as [evs H]. simpl in H.
        exists ([EvPoolGet; EvValidate c; EvConnClose c; EvPoolPut None]
                ++ evs).
        rewrite H, <- !app_assoc. reflexivity.
Qed.

End Acquisition.

Lemma emit_gets_succ n s : emit_gets (S n) s = emit EvPoolGet (emit_gets n s).
Proof.
  revert s; induction n as [|n IH]; intros s; [reflexivity|].
  change (emit_gets (S (S n)) s) with (emit_gets (S n) (emit EvPoolGet s)).
  rewrite IH. reflexivity.
Qed.

(** C10: [getConn] returns for every non-negative budget [a], having asked the
    pool for at most [a] checkouts; the counter strictly decreases at each
    recursive call, and a counter at or below zero gives the error at once,
    with nothing asked of the pool. *)
Theorem getConn_terminates_within_budget (E : Env) (a : Z) (s : State)
  (Ha : 0 <= a) :
  (exists r s', getConn E a s = Some (r, s')
     /\ (checkouts s' <= checkouts s + Z.to_nat a)%nat)
  /\ (forall b, 0 < b -> (Z.to_nat (GoInt.sub b 1) < Z.to_nat b)%nat)
  /\ (forall b s0, b <= 0 -> getConn E b s0 = Some (exhausted, s0)).
Proof.
  split; [|split].
  - destruct (getConn_total E a s) as [r [s' H]].
    exists r, s'. split; [assumption|].
    apply getConn_attempts_bound in H. lia.
  - exact GoIntFacts.sub_1_decreases.
  - intros b s0 Hb. rewrite getConn_unfold.
    destruct (Z.leb_spec b 0); [reflexivity | lia].
Qed.

Lemma getConn_terminates_within_budget_witness :
  0 <= 3
  /\ exists r s', getConn (env_failover 7) 3 (booted (env_failover 7)
                                              (sample_settings 1 2 [])) = Some (r, s')
     /\ (checkouts s' <= 0 + 3)%nat.
Proof.
  split; [lia|].
  destruct (getConn_terminates_within_budget (env_failover 7) 3
              (booted (env_failover 7) (sample_settings 1 2 [])) ltac:(lia))
    as [H _].
  exact H.
Defined.

(** C6: when a checkout fails with an error that is not a network timeout,
    [getConn] returns that very error at once, whatever the number of attempts
    left: the checkout is the last thing it asks of the pool. *)
Theorem getConn_propagates_error (E : Env) (a : Z) (s : State) (err : error)
  (Ha : 0 < a)
  (Hget : pool_Get E (checkouts s) = GetErr err)
  (Hperm : is_net_timeout err = false) :
  getConn E a s = Some ((None, Some err), emit EvPoolGet s).
Proof.
  rewrite getConn_unfold. destruct (Z.leb_spec a 0); [lia|].
  cbv zeta. rewrite Hget, Hperm. reflexivity.
Qed.

Lemma getConn_propagates_error_witness :
  let s := booted env_refused (sample_settings 1 5 ["s1:26379"; "s2:26379"]%string) in
  connectionAttempts env_refused s = 6
  /\ GetConn env_refused s = Some ((None, Some refused_error), emit EvPoolGet s).
Proof.
  intros s. split; [reflexivity|].
  apply (getConn_propagates_error env_refused 6 s refused_error);
    [lia | reflexivity | reflexivity].
Defined.

(** C5: when a checkout hands out a connection that fails
    [validateConnection], [getConn] does return, and by then it has closed
    that connection, put nil back into the pool and gone on with one attempt
    less: the four calls are in the trace, in this order, right after what was
    there before; the result is the one of [getConn] with the counter one
    lower run after them; and the retry has asked the pool for no more than
    that lower counter allows.  The result is never that connection, and
    [GetConn] always returns, with a connection only if it has passed
    validation. *)
Theorem getConn_discards_invalid (E : Env) (a : Z) (s : State)
  (conn : RedisConn)
  (Ha : 0 < a <= GoInt.max_int)
  (Hget : pool_Get E (checkouts s) = GetOk conn)
  (Hdead : validateConnection E conn = false) :
  (exists r s' evs,
     getConn E a s = Some (r, s')
     /\ getConn E (a - 1)
          (emit (EvPoolPut None)
             (emit (EvConnClose conn)
                (emit (EvValidate conn) (emit EvPoolGet s))))
        = Some (r, s')
     /\ trace s' = trace s ++ [EvPoolGet; EvValidate conn; EvConnClose conn;
                               EvPoolPut None] ++ evs
     /\ fst r <> Some conn
     /\ (checkouts s < checkouts s'
                     <= checkouts s + 1 + Z.to_nat (a - 1))%nat)
  /\ (forall s0, exists r s',
        GetConn E s0 = Some (r, s')
        /\ forall c, fst r = Some c -> validateConnection E c = true).
Proof.
  split.
  - assert (Heq : getConn E a s =
        getConn E (a - 1)
          (emit (EvPoolPut None)
             (emit (EvConnClose conn)
                (emit (EvValidate conn) (emit EvPoolGet s))))).
    { rewrite getConn_unfold. destruct (Z.leb_spec a 0); [lia|].
      cbv zeta. rewrite Hget, Hdead. simpl negb. cbv iota.
      rewrite GoIntFacts.sub_1_pos by lia. reflexivity. }
    destruct (getConn_total E (a - 1)
                (emit (EvPoolPut None)
                   (emit (EvConnClose conn)
                      (emit (EvValidate conn) (emit EvPoolGet s)))))
      as [r [s' Hrest]].
    pose proof (getConn_attempts_bound E _ _ _ _ Hrest) as Hb.
    rewrite !checkouts_emit_other, checkouts_emit_get in Hb by reflexivity.
    destruct (getConn_trace_grows E _ _ _ _ Hrest) as [evs Htr].
    simpl in Htr. rewrite <- !app_assoc in Htr. simpl in Htr.
    exists r, s', evs. rewrite Heq. split; [exact Hrest|].
    split; [exact Hrest|]. split; [exact Htr|]. split.
    + intros Hc. destruct r as [c e]. simpl in Hc. subst c.
      apply getConn_returns_valid in Hrest. destruct Hrest as [Hv _].
      congruence.
    + lia.
  - intros s0. destruct (getConn_total E (connectionAttempts E s0) s0)
      as [r [s' H]].
    exists r, s'. split; [exact H|]. intros c Hc.
    destruct r as [c0 e]. simpl in Hc. subst c0.
    apply getConn_returns_valid in H. tauto.
Qed.

Lemma getConn_discards_invalid_witness :
  let s := booted env_stale (sample_settings 1 2 ["s1:26379"]%string) in
  validateConnection env_stale (redisConn 0) = false
  /\ exists r s' evs,
       getConn env_stale 3 s = Some (r, s')
       /\ trace s' = trace s ++ [EvPoolGet; EvValidate (redisConn 0);
                                 EvConnClose (redisConn 0); EvPoolPut None]
                             ++ evs
       /\ fst r <> Some (redisConn 0).
Proof.
  intros s. split; [reflexivity|].
  destruct (getConn_discards_invalid env_stale 3 s (redisConn 0))
    as [(r & s' & evs & H1 & _ & H3 & H4 & _) _];
    [unfold GoInt.max_int, GoInt.int_bits; lia | reflexivity | reflexivity |].
  exists r, s', evs. split; [exact H1|]. split; [exact H3|exact H4].
Defined.

(** C2: with a store address that is not Sentinel the budget is one attempt,
    whatever the connection count: [GetConn] asks the pool at most once, and
    when that checkout times out it fails with the exhaustion error, the one
    checkout being all it did. *)
Theorem GetConn_direct_single_attempt (E : Env) (s : State)
  (Hdirect : isSentinelConnection E (workerSettings s) = false) :
  connectionAttempts E s = 1
  /\ (exists r s', GetConn E s = Some (r, s')
        /\ (checkouts s' <= checkouts s + 1)%nat)
  /\ (forall err, pool_Get E (checkouts s) = GetErr err ->
                  is_net_timeout err = true ->
                  GetConn E s = Some (exhausted, emit EvPoolGet s)).
Proof.
  assert (Hb : connectionAttempts E s = 1).
  { unfold connectionAttempts. rewrite Hdirect. reflexivity. }
  split; [assumption|]. unfold GetConn. rewrite Hb. split.
  - destruct (getConn_total E 1 s) as [r [s' H]].
    exists r, s'. split; [assumption|].
    apply getConn_attempts_bound in H. simpl in H. lia.
  - intros err Hget Hto.
    rewrite getConn_unfold. simpl. rewrite Hget, Hto.
    rewrite getConn_unfold. reflexivity.
Qed.

Lemma GetConn_direct_single_attempt_witness :
  let E := env_failover 1 in
  let s := booted E (sample_settings 3 2 []) in
  isSentinelConnection E (workerSettings s) = false
  /\ GetConn E s = Some (exhausted, emit EvPoolGet s).
Proof.
  intros E s. split; [reflexivity|].
  destruct (GetConn_direct_single_attempt E s eq_refl) as [_ [_ H]].
  apply (H timeout_error); reflexivity.
Defined.

(** C1: with a Sentinel store address and a connection count [C], [GetConn]
    asks the pool for at most [C + 1] checkouts; for [0 <= C] with [C + 1]
    still an [int], the budget is [C + 1], and when the first [C] checkouts
    time out and the next one hands out a connection that passes validation,
    [GetConn] returns that connection, after exactly [C + 1] checkouts. *)
Theorem GetConn_sentinel_budget (E : Env) (s : State) (C : Z)
  (conn : RedisConn)
  (Hsentinel : isSentinelConnection E (workerSettings s) = true)
  (HC : Connections (workerSettings s) = C)
  (Hint : GoInt.in_range C) :
  (exists r s', GetConn E s = Some (r, s')
     /\ (checkouts s' <= checkouts s + Z.to_nat (C + 1))%nat)
  /\ (0 <= C < GoInt.max_int ->
      connectionAttempts E s = C + 1
      /\ (times_out E s (Z.to_nat C) ->
          pool_Get E (checkouts s + Z.to_nat C) = GetOk conn ->
          validateConnection E conn = true ->
          GetConn E s =
            Some ((Some conn, None),
                  emit (EvValidate conn) (emit_gets (Z.to_nat C + 1) s)))).
Proof.
  assert (Hb : connectionAttempts E s = GoInt.add C 1).
  { unfold connectionAttempts. rewrite Hsentinel, HC. reflexivity. }
  split.
  - destruct (getConn_total E (connectionAttempts E s) s) as [r [s' H]].
    exists r, s'. split; [exact H|].
    apply getConn_attempts_bound in H. rewrite Hb in H.
    assert (GoInt.add C 1 <= Z.max 0 (C + 1)).
    { unfold GoInt.add. destruct (Z_lt_le_dec (C + 1) 0) as [Hn|Hp].
      - rewrite GoIntFacts.wrap_in_range; [lia|].
        unfold GoInt.in_range, GoInt.min_int, GoInt.max_int, GoInt.int_bits
          in *. lia.
      - pose proof (GoIntFacts.wrap_le (C + 1) Hp). lia. }
    lia.
  - intros Hrange.
    assert (Hb' : connectionAttempts E s = C + 1).
    { rewrite Hb. apply GoIntFacts.add_1_no_overflow.
      unfold GoInt.min_int, GoInt.int_bits. lia. }
    split; [exact Hb'|].
    intros Hto Hget Hvalid. unfold GetConn. rewrite Hb'.
    rewrite (getConn_after_timeouts E (Z.to_nat C)) by (auto; lia).
    replace (C + 1 - Z.of_nat (Z.to_nat C)) with 1 by lia.
    rewrite getConn_unfold. simpl (1 <=? 0). cbv iota zeta.
    rewrite checkouts_emit_gets, Hget, Hvalid. simpl negb. cbv iota.
    replace (Z.to_nat C + 1)%nat with (S (Z.to_nat C)) by lia.
    rewrite emit_gets_succ. reflexivity.
Qed.

(** Scenario B of the specification: two monitor endpoints, five connections,
    five timeouts in a row and then a healthy connection. *)
Lemma GetConn_sentinel_budget_witness :
  let E := env_failover 5 in
  let s := booted E (sample_settings 3 5 ["s1:26379"; "s2:26379"]%string) in
  isSentinelConnection E (workerSettings s) = true
  /\ Connections (workerSettings s) = 5
  /\ connectionAttempts E s = 6
  /\ GetConn E s =
       Some ((Some (redisConn 5), None),
             emit (EvValidate (redisConn 5)) (emit_gets 6 s)).
Proof.
  intros E s.
  destruct (GetConn_sentinel_budget E s 5 (redisConn 5) eq_refl eq_refl)
    as [_ H].
  { unfold GoInt.in_range, GoInt.min_int, GoInt.max_int, GoInt.int_bits. lia. }
  destruct H as [Hb Hr].
  { unfold GoInt.max_int, GoInt.int_bits. lia. }
  split; [reflexivity|]. split; [reflexivity|]. split; [exact Hb|].
  apply Hr; [|reflexivity|reflexivity].
  intros i Hi. exists timeout_error. split; [|reflexivity].
  change (checkouts s) with 0%nat. simpl Nat.add.
  unfold E, env_failover, sample_env, pool_Get.
  destruct (Nat.ltb_spec i 5); [reflexivity|].
  change (Z.to_nat 5) with 5%nat in Hi. lia.
Defined.

(** Where the budget arithmetic stops being [C + 1]: at the largest [int] the
    sum wraps around and [GetConn] gives up before asking the pool at all. *)
Lemma connectionAttempts_wraps (E : Env) (s : State) :
  isSentinelConnection E (workerSettings s) = true ->
  Connections (workerSettings s) = GoInt.max_int ->
  connectionAttempts E s = GoInt.min_int
  /\ GetConn E s = Some (exhausted, s).
Proof.
  intros Hs Hc.
  assert (Hb : connectionAttempts E s = GoInt.min_int).
  { unfold connectionAttempts. rewrite Hs, Hc. reflexivity. }
  split; [exact Hb|]. unfold GetConn. rewrite Hb.
  rewrite getConn_unfold. reflexivity.
Qed.

(** ** Lifecycle and configuration *)

Section Lifecycle.

Variable E : Env.

(** What a successful first [Init] leaves behind. *)
Lemma Init_success s s1 :
  initialized s = false ->
  Init E s = (None, s1) ->
  exists lg ws p,
    LoggerFromWriterWithMinLevel E = Ok lg
    /\ flags E (workerSettings s) = (None, ws)
    /\ workerSettings s1 =
         (if negb (String.eqb (URI ws) EmptyString)
          then set_RedisSettings (set_rs_URI (URI ws) (RedisSettings_ ws)) ws
          else ws)
    /\ p = newRedisPool (RedisSettings_ (workerSettings s1))
                        (Connections ws) (Connections ws) time_Minute
    /\ s1 = mkState (Some lg) (Some p) (Some context_Background) true
                    (workerSettings s1)
                    (trace s ++ [EvLoggerFromWriter; EvFlags;
                                 EvNewRedisPool p]).
Proof.
  intros Hu H. unfold Init in H. rewrite Hu in H. simpl negb in H.
  cbv iota in H.
  destruct (LoggerFromWriterWithMinLevel E) as [lg|e]; [|discriminate].
  destruct (flags E _) as [[e|] ws] eqn:Hf; [discriminate|].
  simpl in Hf. exists lg, ws.
  cbn [workerSettings set_ctx emit set_workerSettings] in H.
  destruct (negb (String.eqb (URI ws) EmptyString)) eqn:Huri;
    inversion H; subst s1; clear H;
    cbn [workerSettings set_ctx emit set_workerSettings set_pool
         set_initialized set_logger logger pool ctx initialized trace];
    try rewrite Huri;
    eexists; (split; [reflexivity|]); (split; [first [exact Hf | reflexivity]|]);
    (split; [reflexivity|]); (split; [reflexivity|]);
    cbv [set_initialized emit set_pool set_workerSettings set_ctx
         set_logger logger pool ctx initialized workerSettings trace
         RedisSettings_ set_RedisSettings];
    rewrite <- !app_assoc; reflexivity.
Qed.

Lemma Init_initialized s :
  initialized s = true -> Init E s = (None, s).
Proof. intros H. unfold Init. rewrite H. reflexivity. Qed.

Lemma Close_twice s : Close (Close s) = Close s.
Proof.
  unfold Close. destruct (initialized s) eqn:Hi; simpl.
  - reflexivity.
  - rewrite Hi. reflexivity.
Qed.

Lemma Close_uninitialized s : initialized (Close s) = false.
Proof. unfold Close. destruct (initialized s) eqn:Hi; simpl; auto. Qed.

Lemma Close_pools_closed s :
  pools_closed (Close s)
  = (pools_closed s + if initialized s then 1 else 0)%nat.
Proof.
  unfold Close. destruct (initialized s).
  - unfold pools_closed, count. simpl.
    rewrite filter_app, length_app. reflexivity.
  - lia.
Qed.

End Lifecycle.

(** C3: [Init] and [Close] are idempotent.  After a first [Init] that
    succeeds, a second [Init] succeeds too and changes nothing, not even the
    trace: the two calls together have built one pool.  A second [Close]
    changes nothing either: two calls leave [initialized] false and have
    closed the pool once if the process was initialized and not at all
    otherwise. *)
Theorem Init_Close_idempotent (E : Env) (s s1 : State)
  (Hfresh : initialized s = false)
  (Hfirst : Init E s = (None, s1)) :
  Init E s1 = (None, s1)
  /\ initialized s1 = true
  /\ pools_built s1 = S (pools_built s)
  /\ (forall s0,
        Close (Close s0) = Close s0
        /\ initialized (Close (Close s0)) = false
        /\ pools_closed (Close (Close s0))
           = (pools_closed s0 + if initialized s0 then 1 else 0)%nat).
Proof.
  destruct (Init_success E s s1 Hfresh Hfirst)
    as (lg & ws & p & _ & _ & _ & _ & Hs1).
  assert (Hi : initialized s1 = true) by (rewrite Hs1; reflexivity).
  split; [apply Init_initialized; exact Hi|].
  split; [exact Hi|]. split.
  - rewrite Hs1. unfold pools_built, count. simpl.
    rewrite filter_app, length_app. simpl. lia.
  - intros s0. rewrite Close_twice. split; [reflexivity|].
    split; [apply Close_uninitialized | apply Close_pools_closed].
Qed.

Lemma Init_Close_idempotent_witness :
  let E := env_failover 0 in
  let s := fresh (sample_settings 3 2 []) in
  initialized s = false
  /\ Init E (snd (Init E s)) = (None, snd (Init E s))
  /\ pools_built (snd (Init E (snd (Init E s)))) = 1%nat
  /\ initialized (Close (Close (snd (Init E s)))) = false
  /\ pools_closed (Close (Close (snd (Init E s)))) = 1%nat.
Proof.
  intros E s.
  destruct (Init_Close_idempotent E s (snd (Init E s)) eq_refl eq_refl)
    as (H2 & Hi & Hb & Hc).
  destruct (Hc (snd (Init E s))) as (_ & Hc2 & Hc3).
  split; [reflexivity|]. split; [exact H2|]. split; [rewrite H2; exact Hb|].
  split; [exact Hc2|]. rewrite Hc3. reflexivity.
Defined.

(** C8: [SetRedisSettings] stores its argument as the store-address
    sub-record and leaves every other settings field, and every other package
    variable, as it was; [SetSettings] stores its argument as the whole
    settings record.  Both accept every argument and call nothing: no
    validation happens at assignment. *)
Theorem SetRedisSettings_frame (rs : RedisSettings) (ws : WorkerSettings)
  (s : State) :
  (let s' := SetRedisSettings rs s in
   RedisSettings_ (workerSettings s') = rs
   /\ QueuesString (workerSettings s') = QueuesString (workerSettings s)
   /\ Queues (workerSettings s') = Queues (workerSettings s)
   /\ IntervalFloat (workerSettings s') = IntervalFloat (workerSettings s)
   /\ Interval (workerSettings s') = Interval (workerSettings s)
   /\ Concurrency (workerSettings s') = Concurrency (workerSettings s)
   /\ Connections (workerSettings s') = Connections (workerSettings s)
   /\ URI (workerSettings s') = URI (workerSettings s)
   /\ Namespace (workerSettings s') = Namespace (workerSettings s)
   /\ ExitOnComplete (workerSettings s') = ExitOnComplete (workerSettings s)
   /\ IsStrict (workerSettings s') = IsStrict (workerSettings s)
   /\ UseNumber (workerSettings s') = UseNumber (workerSettings s)
   /\ s' = set_workerSettings (workerSettings s') s)
  /\ (let s' := SetSettings ws s in
      workerSettings s' = ws /\ s' = set_workerSettings ws s)
  /\ (forall s0, trace (set_workerSettings ws s0) = trace s0
                 /\ logger (set_workerSettings ws s0) = logger s0
                 /\ pool (set_workerSettings ws s0) = pool s0
                 /\ ctx (set_workerSettings ws s0) = ctx s0
                 /\ initialized (set_workerSettings ws s0) = initialized s0).
Proof.
  split; [|split].
  - cbv zeta. unfold SetRedisSettings. simpl. repeat split; reflexivity.
  - cbv zeta. unfold SetSettings. split; reflexivity.
  - intros s0. repeat split; reflexivity.
Qed.

(** C9: on a first [Init] that succeeds, when the top-level [URI] of the
    settings (as [flags] leaves them) is not empty, [RedisSettings.URI] is
    overwritten with it before the pool is built: the pool is built against
    the top-level URI, whatever store address [SetRedisSettings] had
    supplied. *)
Theorem Init_pool_uses_toplevel_URI (E : Env) (s0 s1 : State)
  (rs : RedisSettings)
  (Hfresh : initialized s0 = false)
  (Hinit : Init E (SetRedisSettings rs s0) = (None, s1))
  (Huri : URI (workerSettings s1) <> EmptyString) :
  URI (workerSettings s1)
    = URI (snd (flags E (workerSettings (SetRedisSettings rs s0))))
  /\ rs_URI (RedisSettings_ (workerSettings s1)) = URI (workerSettings s1)
  /\ exists p,
       pool s1 = Some p
       /\ rs_URI (rp_settings p) = URI (workerSettings s1)
       /\ trace s1 = trace s0 ++ [EvLoggerFromWriter; EvFlags;
                                  EvNewRedisPool p].
Proof.
  destruct (Init_success E (SetRedisSettings rs s0) s1 Hfresh Hinit)
    as (lg & ws & p & _ & Hf & Hws & Hp & Hs1).
  rewrite Hf. simpl snd.
  assert (Hu : URI (workerSettings s1) = URI ws).
  { rewrite Hws. destruct (negb (String.eqb (URI ws) EmptyString));
      reflexivity. }
  assert (Hne : negb (String.eqb (URI ws) EmptyString) = true).
  { rewrite Hu in Huri. destruct (String.eqb_spec (URI ws) EmptyString);
      [contradiction | reflexivity]. }
  rewrite Hne in Hws.
  assert (Hrs : rs_URI (RedisSettings_ (workerSettings s1))
                = URI (workerSettings s1)).
  { rewrite Hu, Hws. reflexivity. }
  split; [exact Hu|]. split; [exact Hrs|].
  exists p. split; [rewrite Hs1; reflexivity|].
  split; [rewrite Hp; exact Hrs|].
  rewrite Hs1. reflexivity.
Qed.

Lemma Init_pool_uses_toplevel_URI_witness :
  let E := env_failover 0 in
  let s0 := fresh (set_URI "redis://primary:6379/" (sample_settings 3 2 [])) in
  let rs := sample_redis ["s1:26379"]%string in
  let s1 := snd (Init E (SetRedisSettings rs s0)) in
  rs_URI rs = "redis://localhost:6379/"%string
  /\ URI (workerSettings s1) = "redis://primary:6379/"%string
  /\ exists p, pool s1 = Some p
               /\ rs_URI (rp_settings p) = URI (workerSettings s1)
               /\ trace s1 = trace s0 ++ [EvLoggerFromWriter; EvFlags;
                                          EvNewRedisPool p].
Proof.
  intros E s0 rs s1.
  destruct (Init_pool_uses_toplevel_URI E s0 s1 rs eq_refl eq_refl)
    as (_ & _ & H).
  { discriminate. }
  split; [reflexivity|]. split; [reflexivity|]. exact H.
Defined.

(** ** Orchestration *)

Lemma emit_all_app evs1 evs2 s :
  emit_all (evs1 ++ evs2) s = emit_all evs2 (emit_all evs1 s).
Proof. unfold emit_all. apply fold_left_app. Qed.

Lemma trace_emit_all evs s : trace (emit_all evs s) = trace s ++ evs.
Proof.
  revert s; induction evs as [|ev evs IH]; intros s; simpl.
  - rewrite app_nil_r. reflexivity.
  - unfold emit_all in IH. rewrite IH. simpl. rewrite <- app_assoc.
    reflexivity.
Qed.

Lemma workerSettings_emit_all evs s :
  workerSettings (emit_all evs s) = workerSettings s.
Proof.
  revert s; induction evs as [|ev evs IH]; intros s; simpl;
    [|unfold emit_all in IH; rewrite IH]; reflexivity.
Qed.

Lemma length_ids_from id k : List.length (ids_from id k) = k.
Proof. revert id; induction k; intros id; simpl; auto. Qed.

Lemma in_ids_from i id k :
  In i (ids_from id k) <-> id <= i < id + Z.of_nat k.
Proof.
  revert id; induction k as [|k IH]; intros id; simpl.
  - lia.
  - rewrite IH. lia.
Qed.

Section Orchestration.

Variable E : Env.

Lemma Work_run_add n m c :
  Work_run E (n + m) c = Work_run E m (Work_run E n c)
  \/ Work_step E (Work_run E n c) = None.
Proof.
  revert c; induction n as [|n IH]; intros c; simpl.
  - left; reflexivity.
  - destruct (Work_step E c) as [c'|] eqn:Hs.
    + apply IH.
    + right; exact Hs.
Qed.

Lemma Work_run_step c c' n :
  Work_step E c = Some c' -> Work_run E (S n) c = Work_run E n c'.
Proof. intros H. simpl. rewrite H. reflexivity. Qed.

(** The run of [Work] alone is one of the runs of the whole system. *)
Lemma Work_run_reachable c0 n : forall c,
  reachable E c0 c -> reachable E c0 (Work_run E n c).
Proof.
  induction n as [|n IH]; intros c Hc; simpl.
  - exact Hc.
  - destruct (Work_step E c) as [c'|] eqn:Hs; [|exact Hc].
    apply IH. eapply reach_step; [exact Hc|]. apply step_Work; exact Hs.
Qed.

(** The loop of [Work] from counter [id] on, when the [k] constructions
    still to come all succeed. *)
Lemma Work_loop_runs (N : Z) (Q : queuesFlag) (jobs : JobStream)
  (mk : Z -> worker) :
  N <= GoInt.max_int ->
  (forall i, 0 <= i < N -> newWorker E (Itoa i) Q = Ok (mk i)) ->
  forall k id c,
    pc c = AtLoop jobs id ->
    0 <= id ->
    Z.of_nat k = Z.max 0 (N - id) ->
    Concurrency (workerSettings (st c)) = N ->
    Queues (workerSettings (st c)) = Q ->
    let c' := Work_run E (S k) c in
    pc c' = AtWait
    /\ st c' = emit_all (flat_map (worker_events Q jobs mk) (ids_from id k))
                        (st c)
    /\ started c' = started c ++ map mk (ids_from id k)
    /\ running c' = running c ++ map mk (ids_from id k)
    /\ signaled c' = signaled c
    /\ wg_counter c' = wg_counter c + Z.of_nat k.
Proof.
  intros HN Hmk. induction k as [|k IH]; intros id c Hpc Hid Hk HC HQ.
  - cbv zeta. simpl Work_run. unfold Work_step. rewrite Hpc, HC.
    destruct (Z.ltb_spec id N); [lia|].
    simpl. rewrite !app_nil_r. repeat split; try reflexivity. lia.
  - cbv zeta. rewrite (Work_run_step c
      (worker_work (mk id) jobs
         (goto (AtLoop jobs (id + 1))
               (emit (EvNewWorker (Itoa id) Q) (st c)) c))).
    + destruct (IH (id + 1)
        (worker_work (mk id) jobs
           (goto (AtLoop jobs (id + 1))
                 (emit (EvNewWorker (Itoa id) Q) (st c)) c)))
        as (H1 & H2 & H3 & H4 & H5 & H6);
        try reflexivity; try assumption; try lia.
      rewrite H1, H2, H3, H4, H5, H6. simpl.
      rewrite <- !app_assoc. simpl.
      repeat split; try reflexivity. lia.
    + unfold Work_step. rewrite Hpc, HC.
      destruct (Z.ltb_spec id N); [|lia].
      cbv zeta. cbn [emit workerSettings].
      rewrite HQ, Hmk by lia.
      rewrite GoIntFacts.add_1_no_overflow; [reflexivity|].
      unfold GoInt.min_int, GoInt.int_bits in *. lia.
Qed.

Lemma reachable_invariant (P : Sys -> Prop) c0 :
  P c0 ->
  (forall c c', P c -> step E c c' -> P c') ->
  forall c, reachable E c0 c -> P c.
Proof. intros H0 HS c Hc. induction Hc; eauto. Qed.

Lemma barrier_inv_step c c' :
  barrier_inv E c -> step E c c' -> barrier_inv E c'.
Proof.
  intros (Hcnt & Hperm & Hentry & Hret & Herr) Hstep.
  destruct Hstep as [c c' Hw | c before w after Hrun | c].
  - unfold Work_step in Hw. destruct (pc c) as [|jobs id| |r] eqn:Hpc.
    + specialize (Hentry eq_refl).
      destruct (Init E (st c)) as [[e|] s1].
      * inversion Hw; subst c'; clear Hw. unfold barrier_inv; simpl.
        repeat split; auto; intros; discriminate.
      * destruct (newPoller E _ _) as [p|e];
          inversion Hw; subst c'; clear Hw; unfold barrier_inv; simpl;
          repeat split; auto; intros; discriminate.
    + destruct (id <? _).
      * cbv zeta in Hw. destruct (newWorker E _ _) as [w|e] eqn:Hnw;
          inversion Hw; subst c'; clear Hw; unfold barrier_inv; simpl.
        -- rewrite length_app; simpl. repeat split.
           ++ lia.
           ++ rewrite <- app_assoc.
              apply Permutation_trans
                with ((running c ++ signaled c) ++ [w]).
              ** apply Permutation_app_tail; exact Hperm.
              ** rewrite <- app_assoc. apply Permutation_app_head.
                 apply Permutation_app_comm.
           ++ discriminate.
           ++ discriminate.
           ++ intros _ err H; discriminate.
        -- repeat split; auto; try discriminate.
           intros Hc err _. destruct (Hc (Itoa id)
             (Queues (workerSettings (st c)))) as [w Hw].
           cbn [emit workerSettings] in Hnw. congruence.
      * inversion Hw; subst c'; clear Hw. unfold barrier_inv; simpl.
        repeat split; auto; intros; discriminate.
    + destruct (Z.eqb_spec (wg_counter c) 0); [|discriminate].
      inversion Hw; subst c'; clear Hw. unfold barrier_inv; simpl.
      assert (running c = []) by (destruct (running c); simpl in *; [reflexivity | lia]).
      repeat split; auto; intros; discriminate.
    + discriminate.
  - unfold barrier_inv, worker_exit; simpl.
    rewrite Hrun in *. rewrite ?length_app in *; simpl in *.
    repeat split.
    + lia.
    + apply Permutation_trans with ((before ++ w :: after) ++ signaled c);
        [exact Hperm|].
      rewrite <- !app_assoc. apply Permutation_app_head. simpl.
      rewrite (app_assoc after). apply Permutation_cons_append.
    + exact Hentry.
    + intros H. apply Hret in H. destruct before; discriminate.
    + exact Herr.
  - unfold barrier_inv, fire_quit; simpl. repeat split; auto.
Qed.

Lemma barrier_inv_reachable s c :
  reachable E (Work_entry s) c -> barrier_inv E c.
Proof.
  apply reachable_invariant.
  - unfold barrier_inv; simpl. repeat split; auto; intros; discriminate.
  - apply barrier_inv_step.
Qed.

Lemma ids_from_snoc k : forall a,
  ids_from a (S k) = ids_from a k ++ [a + Z.of_nat k].
Proof.
  induction k as [|k IH]; intros a.
  - simpl. f_equal. lia.
  - change (ids_from a (S (S k))) with (a :: ids_from (a + 1) (S k)).
    rewrite IH. simpl. do 2 f_equal. f_equal. lia.
Qed.

Lemma ids_succ id : 0 <= id -> ids (id + 1) = ids id ++ [id].
Proof.
  intros H. unfold ids.
  replace (Z.to_nat (id + 1)) with (S (Z.to_nat id)) by lia.
  rewrite ids_from_snoc. do 2 f_equal. lia.
Qed.

Lemma started_inv_reachable s s1 p (mk : Z -> worker) :
  let ws := workerSettings s1 in
  let jobs := mkJobStream p (Interval ws) quitChan in
  Init E s = (None, s1) ->
  Concurrency ws <= GoInt.max_int ->
  newPoller E (Queues ws) (IsStrict ws) = Ok p ->
  (forall i, 0 <= i < Concurrency ws ->
             newWorker E (Itoa i) (Queues ws) = Ok (mk i)) ->
  forall c, reachable E (Work_entry s) c -> started_inv s ws jobs mk c.
Proof.
  intros ws jobs Hinit HN Hp Hmk. apply reachable_invariant.
  - unfold started_inv; simpl. auto.
  - intros c c' Hinv Hstep.
    destruct Hstep as [c c' Hw | c before w after Hrun | c];
      [|exact Hinv|exact Hinv].
    unfold started_inv in Hinv. unfold Work_step in Hw.
    destruct (pc c) as [|j id| |r] eqn:Hpc.
    + destruct Hinv as [Hst Hs0]. rewrite Hst, Hinit in Hw.
      cbn [emit workerSettings] in Hw. fold ws in Hw. rewrite Hp in Hw.
      inversion Hw; subst c'; clear Hw.
      unfold started_inv; simpl. fold ws. repeat split; auto; lia.
    + destruct Hinv as (Hj & Hid & Hws & Hst). subst j.
      rewrite Hws in Hw. fold ws in Hw.
      destruct (Z.ltb_spec id (Concurrency ws)).
      * cbv zeta in Hw. cbn [emit workerSettings] in Hw.
        rewrite Hws in Hw. fold ws in Hw. rewrite Hmk in Hw by lia.
        inversion Hw; subst c'; clear Hw.
        unfold started_inv; simpl.
        rewrite GoIntFacts.add_1_no_overflow
          by (unfold GoInt.min_int, GoInt.int_bits in *; lia).
        repeat split; auto; try lia.
        rewrite ids_succ by lia. rewrite map_app, Hst. reflexivity.
      * inversion Hw; subst c'; clear Hw.
        unfold started_inv; simpl. rewrite Hst. f_equal.
        unfold ids. f_equal. lia.
    + destruct (wg_counter c =? 0); [|discriminate].
      inversion Hw; subst c'; clear Hw.
      unfold started_inv; simpl. exact Hinv.
    + discriminate.
Qed.

End Orchestration.

(** C7 (as amended): when [Init] and the construction of the poller succeed
    and no worker construction fails, [Work] reaches [monitor.Wait()] having
    constructed and started exactly [Concurrency] workers: [newWorker] was
    called with the decimal strings of [0], ..., [Concurrency - 1], in this
    order, and [work] was called on each result with the one job stream and
    the one barrier.  No run of the system has another list of started workers
    once [Work] waits or has returned through the wait. *)
Theorem Work_starts_all_workers (E : Env) (s s1 : State) (p : poller)
  (mk : Z -> worker) (N : Z)
  (Hinit : Init E s = (None, s1))
  (HN : Concurrency (workerSettings s1) = N)
  (Hint : N <= GoInt.max_int)
  (Hpoller : newPoller E (Queues (workerSettings s1))
                       (IsStrict (workerSettings s1)) = Ok p)
  (Hworkers : forall i, 0 <= i < N ->
      newWorker E (Itoa i) (Queues (workerSettings s1)) = Ok (mk i)) :
  let Q := Queues (workerSettings s1) in
  let jobs := mkJobStream p (Interval (workerSettings s1)) quitChan in
  let c := Work_run E (Z.to_nat N + 2) (Work_entry s) in
  pc c = AtWait
  /\ started c = map mk (ids N)
  /\ List.length (started c) = Z.to_nat N
  /\ running c = started c
  /\ wg_counter c = Z.of_nat (List.length (started c))
  /\ st c = emit_all
              ([EvSignals; EvNewPoller Q (IsStrict (workerSettings s1));
                EvPoll p (Interval (workerSettings s1))]
               ++ flat_map (worker_events Q jobs mk) (ids N)) s1
  /\ (forall c', reachable E (Work_entry s) c' ->
                 pc c' = AtWait \/ pc c' = Returned None ->
                 started c' = map mk (ids N)).
Proof.
  intros Q jobs c.
  assert (Hlen : List.length (map mk (ids N)) = Z.to_nat N).
  { rewrite length_map. apply length_ids_from. }
  assert (Hrun : pc c = AtWait
                 /\ st c = emit_all (flat_map (worker_events Q jobs mk) (ids N))
                      (emit (EvPoll p (Interval (workerSettings s1)))
                         (emit (EvNewPoller Q (IsStrict (workerSettings s1)))
                            (emit EvSignals s1)))
                 /\ started c = map mk (ids N)
                 /\ running c = map mk (ids N)
                 /\ wg_counter c = Z.of_nat (Z.to_nat N)).
  { subst c. replace (Z.to_nat N + 2)%nat with (S (S (Z.to_nat N))) by lia.
    rewrite (Work_run_step E (Work_entry s)
       (goto (AtLoop jobs 0)
          (emit (EvPoll p (Interval (workerSettings s1)))
             (emit (EvNewPoller Q (IsStrict (workerSettings s1)))
                (emit EvSignals s1))) (Work_entry s))).
    - pose proof (Work_loop_runs E N Q jobs mk Hint Hworkers (Z.to_nat N) 0
        (goto (AtLoop jobs 0)
          (emit (EvPoll p (Interval (workerSettings s1)))
             (emit (EvNewPoller Q (IsStrict (workerSettings s1)))
                (emit EvSignals s1))) (Work_entry s))
        eq_refl ltac:(lia) ltac:(lia) HN eq_refl) as Hloop.
      cbv zeta in Hloop. destruct Hloop as (H1 & H2 & H3 & H4 & _ & H6).
      unfold ids. repeat split; assumption.
    - unfold Work_step. simpl pc. cbv iota. simpl st. rewrite Hinit.
      cbv zeta. cbn [emit workerSettings]. rewrite Hpoller. reflexivity. }
  destruct Hrun as (H1 & H2 & H3 & H4 & H5).
  split; [exact H1|]. split; [exact H3|].
  split; [rewrite H3; exact Hlen|].
  split; [congruence|].
  split; [rewrite H3, Hlen; exact H5|].
  split.
  - rewrite H2, emit_all_app. reflexivity.
  - intros c' Hreach Hpc.
    pose proof (started_inv_reachable E s s1 p mk Hinit) as Hinv.
    cbv zeta in Hinv. rewrite HN in Hinv.
    specialize (Hinv Hint Hpoller Hworkers c' Hreach).
    unfold started_inv in Hinv. rewrite HN in Hinv.
    destruct Hpc as [Hpc|Hpc]; rewrite Hpc in Hinv; exact Hinv.
Qed.

(** Scenario A of the specification: three workers over the queues [a] and
    [b]. *)
Lemma Work_starts_all_workers_witness :
  let E := env_failover 0 in
  let s := fresh (sample_settings 3 2 []) in
  let c := Work_run E 5 (Work_entry s) in
  fst (Init E s) = None
  /\ pc c = AtWait
  /\ map worker_id (started c) = ["0"; "1"; "2"]%string
  /\ List.length (started c) = 3%nat.
Proof.
  intros E s c.
  destruct (Work_starts_all_workers E s (snd (Init E s))
              (mkPoller ["a"; "b"]%string true)
              (fun i => mkWorker (Itoa i) ["a"; "b"]%string) 3
              eq_refl eq_refl)
    as (H1 & H2 & H3 & _).
  - unfold GoInt.max_int, GoInt.int_bits. lia.
  - reflexivity.
  - intros i Hi. reflexivity.
  - split; [reflexivity|]. split; [exact H1|].
    split; [|exact H3].
    change (started c) with
      (started (Work_run E (Z.to_nat 3 + 2) (Work_entry s))).
    rewrite H2. reflexivity.
Defined.

(** C7 as stated fails: [Init] and the construction of the poller succeed,
    [Concurrency] is 2, yet the construction of the second worker fails and
    [Work] returns the error with one worker started. *)
Lemma Work_starts_fewer_workers :
  let E := env_worker_fails in
  let s := fresh (sample_settings 2 2 []) in
  let s1 := snd (Init E s) in
  let c := Work_run E 3 (Work_entry s) in
  fst (Init E s) = None
  /\ Concurrency (workerSettings s1) = 2
  /\ newPoller E (Queues (workerSettings s1)) (IsStrict (workerSettings s1))
     = Ok (mkPoller ["a"; "b"]%string true)
  /\ pc c = Returned (Some (plainError "no hostname"))
  /\ Work_step E c = None
  /\ map worker_id (started c) = ["0"%string]
  /\ List.length (started c) <> Z.to_nat 2.
Proof.
  cbv zeta. repeat split; try reflexivity.
  vm_compute. discriminate.
Qed.

(** C4 (as amended): a [Work] invocation that returns through
    [monitor.Wait()], that is with a nil error, returns only when every
    worker it started has signaled the barrier, in every interleaving and
    whether or not the quit notification has fired; when no worker
    construction fails this covers every return of [Work]. *)
Theorem Work_returns_after_workers (E : Env) (s : State) (c : Sys)
  (r : option error)
  (Hreach : reachable E (Work_entry s) c)
  (Hret : pc c = Returned r) :
  (r = None ->
     running c = [] /\ Permutation (started c) (signaled c)
     /\ wg_counter c = 0)
  /\ (workers_constructible E ->
     running c = [] /\ Permutation (started c) (signaled c)
     /\ wg_counter c = 0).
Proof.
  destruct (barrier_inv_reachable E s c Hreach)
    as (Hcnt & Hperm & _ & Hnil & Herr).
  assert (Hdone : running c = [] ->
            running c = [] /\ Permutation (started c) (signaled c)
            /\ wg_counter c = 0).
  { intros H. rewrite H in *. simpl in *. auto. }
  split.
  - intros ->. auto.
  - intros Hc. apply Hdone. destruct r as [err|]; [|auto].
    specialize (Herr Hc err Hret). rewrite Herr in Hperm.
    apply Permutation_nil in Hperm.
    destruct (running c); [reflexivity | discriminate].
Qed.

(** Two workers; the first leaves, the quit notification fires, the second
    leaves, and only then does [Work] return. *)
Lemma Work_returns_after_workers_witness :
  let E := env_failover 0 in
  let s := fresh (sample_settings 2 2 []) in
  let w0 := mkWorker "0" ["a"; "b"]%string in
  let w1 := mkWorker "1" ["a"; "b"]%string in
  let c := Work_run E 1
             (worker_exit [] w1 []
                (fire_quit
                   (worker_exit [] w0 [w1]
                      (Work_run E 4 (Work_entry s))))) in
  reachable E (Work_entry s) c
  /\ pc c = Returned None
  /\ quit_fired c = true
  /\ running c = []
  /\ Permutation (started c) (signaled c).
Proof.
  intros E s w0 w1 c.
  assert (Hreach : reachable E (Work_entry s) c).
  { apply Work_run_reachable.
    eapply reach_step;
      [|apply (step_exit E (fire_quit (worker_exit [] w0 [w1]
                  (Work_run E 4 (Work_entry s)))) [] w1 []); reflexivity].
    eapply reach_step; [|apply step_quit].
    eapply reach_step;
      [|apply (step_exit E (Work_run E 4 (Work_entry s)) [] w0 [w1]);
        reflexivity].
    apply Work_run_reachable. apply reach_here. }
  destruct (Work_returns_after_workers E s c None Hreach eq_refl)
    as [H _].
  destruct (H eq_refl) as (Hrun & Hperm & _).
  repeat split; try assumption; reflexivity.
Defined.

(** C4 as stated fails: the construction of the second worker fails after the
    first worker was started, and [Work] returns the error while that worker
    is still running and has not signaled the barrier. *)
Lemma Work_returns_before_workers :
  let E := env_worker_fails in
  let s := fresh (sample_settings 2 2 []) in
  let c := fire_quit (Work_run E 3 (fire_quit (Work_entry s))) in
  reachable E (Work_entry s) c
  /\ quit_fired c = true
  /\ pc c = Returned (Some (plainError "no hostname"))
  /\ running c = [mkWorker "0" ["a"; "b"]%string]
  /\ signaled c = []
  /\ ~ returns_after_workers E s.
Proof.
  intros E s c.
  assert (Hreach : reachable E (Work_entry s) c).
  { eapply reach_step; [|apply step_quit].
    apply Work_run_reachable.
    eapply reach_step; [apply reach_here | apply step_quit]. }
  split; [exact Hreach|]. repeat split.
  intros H. specialize (H c _ Hreach eq_refl). discriminate.
Qed.

(** * Further properties *)

(** ** Lifecycle *)

Lemma count_app f s s' evs :
  trace s' = trace s ++ evs ->
  count f s' = (count f s + List.length (filter f evs))%nat.
Proof.
  intros H. unfold count. rewrite H, filter_app, length_app. reflexivity.
Qed.

Lemma Init_failure (E : Env) s err s1 :
  Init E s = (Some err, s1) ->
  initialized s = false
  /\ ((LoggerFromWriterWithMinLevel E = Err err
       /\ s1 = emit EvLoggerFromWriter (set_logger None s))
      \/ (exists lg ws,
            LoggerFromWriterWithMinLevel E = Ok lg
            /\ flags E (workerSettings s) = (Some err, ws)
            /\ s1 = emit EvFlags
                      (set_workerSettings ws
                         (emit EvLoggerFromWriter (set_logger (Some lg) s))))).
Proof.
  unfold Init. destruct (initialized s); simpl negb; cbv iota;
    [discriminate|]. intros H. split; [reflexivity|].
  destruct (LoggerFromWriterWithMinLevel E) as [lg|e].
  - right. cbn [workerSettings emit set_logger] in H.
    destruct (flags E (workerSettings s)) as [[e|] ws] eqn:Hf;
      inversion H; subst. exists lg, ws. auto.
  - left. inversion H; subst. auto.
Qed.

(** X1: an [Init] that fails found the process uninitialized and leaves it so:
    no pool is built and the pool variable is not touched.  The error is the
    one of the logger, with nothing else run, or the one of [flags], with the
    settings as [flags] left them.  The next [Init] starts over with the
    logger. *)
Theorem Init_failure_keeps_uninitialized (E : Env) (s s1 : State)
  (err : error)
  (Hfail : Init E s = (Some err, s1)) :
  initialized s = false
  /\ initialized s1 = false
  /\ pool s1 = pool s
  /\ pools_built s1 = pools_built s
  /\ ((LoggerFromWriterWithMinLevel E = Err err
       /\ trace s1 = trace s ++ [EvLoggerFromWriter]
       /\ workerSettings s1 = workerSettings s)
      \/ (fst (flags E (workerSettings s)) = Some err
          /\ trace s1 = trace s ++ [EvLoggerFromWriter; EvFlags]
          /\ workerSettings s1 = snd (flags E (workerSettings s))))
  /\ exists rest,
       trace (snd (Init E s1)) = trace s1 ++ EvLoggerFromWriter :: rest.
Proof.
  destruct (Init_failure E s err s1 Hfail) as [Hu Hcase].
  assert (Hs1 : initialized s1 = false /\ pool s1 = pool s
                /\ exists evs, trace s1 = trace s ++ evs
                               /\ filter is_newpool evs = []).
  { destruct Hcase as [[_ ->] | (lg & ws & _ & _ & ->)]; simpl;
      repeat split; auto.
    - exists [EvLoggerFromWriter]. auto.
    - exists [EvLoggerFromWriter; EvFlags]. rewrite <- app_assoc. auto. }
  destruct Hs1 as (Hi1 & Hp1 & evs & Ht & Hnp).
  split; [exact Hu|]. split; [exact Hi1|]. split; [exact Hp1|].
  split.
  { unfold pools_built. rewrite (count_app _ s s1 evs Ht), Hnp. simpl. lia. }
  split.
  - destruct Hcase as [[Hl ->] | (lg & ws & Hl & Hf & ->)]; simpl.
    + left. auto.
    + right. rewrite Hf. rewrite <- app_assoc. auto.
  - unfold Init. rewrite Hi1. simpl negb. cbv iota.
    destruct (LoggerFromWriterWithMinLevel E) as [lg|e].
    + cbn [workerSettings emit set_logger].
      destruct (flags E (workerSettings s1)) as [[e|] ws'].
      * eexists. simpl. rewrite <- app_assoc. reflexivity.
      * match goal with
        | |- context [if ?b then _ else _] => destruct b
        end; eexists; simpl; rewrite <- !app_assoc; reflexivity.
    + eexists. simpl. reflexivity.
Qed.

Lemma Init_failure_keeps_uninitialized_witness :
  let s := fresh (sample_settings 3 2 []) in
  let s1 := snd (Init env_no_queues s) in
  fst (Init env_no_queues s)
    = Some (plainError "you must specify at least one queue")
  /\ initialized s1 = false
  /\ pool s1 = None
  /\ pools_built s1 = 0%nat.
Proof.
  intros s s1.
  destruct (Init_failure_keeps_uninitialized env_no_queues s s1
              (plainError "you must specify at least one queue") eq_refl)
    as (_ & H1 & H2 & H3 & _).
  split; [reflexivity|]. split; [exact H1|]. split; [exact H2|]. exact H3.
Defined.

(** ** Connection acquisition, continued *)

Lemma acquires_refl s : acquires s s.
Proof.
  unfold acquires. repeat split; auto.
  exists []. rewrite app_nil_r. auto.
Qed.

Lemma acquires_emit ev s s' :
  is_acquisition ev = true -> acquires (emit ev s) s' -> acquires s s'.
Proof.
  intros Hev (H1 & H2 & H3 & H4 & H5 & evs & Ht & Hall).
  unfold acquires. simpl in *. repeat split; auto.
  exists (ev :: evs). rewrite Ht, <- app_assoc. simpl. rewrite Hev. auto.
Qed.

Lemma getConn_acquires (E : Env) a s r s' :
  getConn E a s = Some (r, s') -> acquires s s'.
Proof.
  revert r s'. pattern a, s. apply getConn_ind; clear a s.
  - intros a s Ha r s' H. rewrite getConn_unfold in H.
    destruct (Z.leb_spec a 0); [|lia]. inversion H; subst.
    apply acquires_refl.
  - intros a s Ha IH r s' H. rewrite getConn_unfold in H.
    destruct (Z.leb_spec a 0); [lia|]. cbv zeta in H.
    apply (acquires_emit EvPoolGet); [reflexivity|].
    destruct (pool_Get E (checkouts s)) as [e|c].
    + destruct (is_net_timeout e).
      * eapply IH; exact H.
      * inversion H; subst. apply acquires_refl.
    + apply (acquires_emit (EvValidate c)); [reflexivity|].
      destruct (validateConnection E c); simpl in H.
      * inversion H; subst. apply acquires_refl.
      * apply (acquires_emit (EvConnClose c)); [reflexivity|].
        apply (acquires_emit (EvPoolPut None)); [reflexivity|].
        eapply IH; exact H.
Qed.

(** X2: [getConn], and so [GetConn], changes none of the package variables:
    logger, pool, context, [initialized] and the settings are as before, and
    the trace has only grown, by checkouts, validations, closes of
    connections and [pool.Put(nil)]: it never builds or closes a pool and
    never puts a live connection back. *)
Theorem getConn_only_acquires (E : Env) (a : Z) (s s' : State)
  (r : GetResult)
  (Hret : getConn E a s = Some (r, s')) :
  acquires s s'.
Proof. eapply getConn_acquires; exact Hret. Qed.

Lemma getConn_only_acquires_witness :
  let E := env_flaky in
  let s := booted E (sample_settings 1 2 ["s1:26379"]%string) in
  exists s', GetConn E s = Some ((Some (redisConn 2), None), s')
             /\ acquires s s'.
Proof.
  intros E s. eexists. split; [reflexivity|].
  apply (getConn_only_acquires E 3 s _ (Some (redisConn 2), None)).
  reflexivity.
Defined.

(** X3: the slots of the pool are accounted for.  Over one [getConn] call,
    every connection the pool handed out was either given back as an empty
    slot, after being closed, or is the one returned to the caller; once the
    caller has passed that one to [PutConn], as many slots have been given
    back as connections were handed out. *)
Theorem getConn_slot_balance (E : Env) (a : Z) (s s' : State)
  (r : GetResult)
  (Hret : getConn E a s = Some (r, s')) :
  (handed_out s' + given_back s
   = handed_out s + given_back s'
     + match fst r with Some _ => 1 | None => 0 end)%nat
  /\ (conns_closed s' + given_back s = conns_closed s + given_back s')%nat
  /\ (forall conn, fst r = Some conn ->
        (handed_out (PutConn conn s') + given_back s
         = handed_out s + given_back (PutConn conn s'))%nat).
Proof.
  assert (Hmain :
    (handed_out s' + given_back s
     = handed_out s + given_back s'
     + match fst r with Some _ => 1 | None => 0 end)%nat
    /\ (conns_closed s' + given_back s = conns_closed s + given_back s')%nat).
  { revert r s' Hret. pattern a, s. apply getConn_ind; clear a s.
    - intros a s Ha r s' H. rewrite getConn_unfold in H.
      destruct (Z.leb_spec a 0); [|lia]. inversion H; subst. simpl. lia.
    - intros a s Ha IH r s' H. rewrite getConn_unfold in H.
      destruct (Z.leb_spec a 0); [lia|]. cbv zeta in H.
      unfold handed_out, given_back, conns_closed in *.
      destruct (pool_Get E (checkouts s)) as [e|c].
      + destruct (is_net_timeout e).
        * apply IH in H. rewrite !count_emit in H. simpl in H. lia.
        * inversion H; subst. rewrite !count_emit. simpl. lia.
      + destruct (validateConnection E c); simpl in H.
        * inversion H; subst. rewrite !count_emit. simpl. lia.
        * apply IH in H. rewrite !count_emit in H. simpl in H. lia. }
  destruct Hmain as [H1 H2]. split; [exact H1|]. split; [exact H2|].
  intros conn Hc. rewrite Hc in H1.
  unfold PutConn, handed_out, given_back in *. rewrite !count_emit. simpl.
  lia.
Qed.

Lemma getConn_slot_balance_witness :
  let E := env_flaky in
  let s := booted E (sample_settings 1 2 ["s1:26379"]%string) in
  exists s', GetConn E s = Some ((Some (redisConn 2), None), s')
             /\ handed_out s' = 2%nat
             /\ given_back s' = 1%nat
             /\ given_back (PutConn (redisConn 2) s') = 2%nat.
Proof.
  intros E s. eexists. split; [reflexivity|].
  match goal with
  | |- handed_out ?s' = _ /\ _ =>
    destruct (getConn_slot_balance E 3 s s' (Some (redisConn 2), None)
                eq_refl) as (H1 & _ & H3);
    specialize (H3 (redisConn 2) eq_refl)
  end.
  repeat split; reflexivity.
Defined.

Lemma checkouts_emit_all_attempt (E : Env) k s :
  checkouts (emit_all (attempt_events E k) s) = S (checkouts s).
Proof.
  unfold checkouts.
  rewrite (count_app is_get s _ (attempt_events E k))
    by apply trace_emit_all.
  unfold attempt_events. destruct (pool_Get E k) as [e|c]; simpl; [lia|].
  destruct (validateConnection E c); simpl; lia.
Qed.

Lemma after_attempts_succ (E : Env) n s :
  after_attempts E (S n) s
  = after_attempts E n (emit_all (attempt_events E (checkouts s)) s).
Proof.
  unfold after_attempts. rewrite checkouts_emit_all_attempt.
  simpl. rewrite emit_all_app. reflexivity.
Qed.

Lemma after_attempts_snoc (E : Env) n s :
  after_attempts E (S n) s
  = emit_all (attempt_events E (checkouts s + n)) (after_attempts E n s).
Proof.
  unfold after_attempts. rewrite seq_S, flat_map_app, emit_all_app. simpl.
  rewrite app_nil_r. reflexivity.
Qed.

Lemma checkouts_after_attempts (E : Env) n : forall s,
  checkouts (after_attempts E n s) = (checkouts s + n)%nat.
Proof.
  induction n as [|n IH]; intros s.
  - unfold after_attempts. simpl. lia.
  - rewrite after_attempts_succ, IH, checkouts_emit_all_attempt. lia.
Qed.

(** One attempt that [getConn] retries after. *)
Lemma getConn_retry (E : Env) a s :
  0 < a <= GoInt.max_int ->
  retriable E (checkouts s) = true ->
  getConn E a s
  = getConn E (a - 1) (emit_all (attempt_events E (checkouts s)) s).
Proof.
  intros Ha Hr. rewrite getConn_unfold.
  destruct (Z.leb_spec a 0); [lia|]. cbv zeta.
  rewrite GoIntFacts.sub_1_pos by lia.
  unfold retriable in Hr. unfold attempt_events.
  destruct (pool_Get E (checkouts s)) as [e|c].
  - rewrite Hr. reflexivity.
  - destruct (validateConnection E c); [discriminate|]. reflexivity.
Qed.

(** One attempt that [getConn] does not retry after. *)
Lemma getConn_decided (E : Env) a s :
  0 < a ->
  retriable E (checkouts s) = false ->
  getConn E a s
  = Some (decided E (checkouts s),
          emit_all (attempt_events E (checkouts s)) s).
Proof.
  intros Ha Hr. rewrite getConn_unfold.
  destruct (Z.leb_spec a 0); [lia|]. cbv zeta.
  unfold retriable in Hr. unfold attempt_events, decided.
  destruct (pool_Get E (checkouts s)) as [e|c].
  - rewrite Hr. reflexivity.
  - destruct (validateConnection E c); [reflexivity|discriminate].
Qed.

Lemma getConn_after_retries (E : Env) n : forall a s,
  Z.of_nat n <= a <= GoInt.max_int ->
  (forall i, (i < n)%nat -> retriable E (checkouts s + i) = true) ->
  getConn E a s = getConn E (a - Z.of_nat n) (after_attempts E n s).
Proof.
  induction n as [|n IH]; intros a s Ha Hr.
  - unfold after_attempts. simpl. f_equal. lia.
  - rewrite getConn_retry; [|lia|].
    + rewrite IH.
      * rewrite <- after_attempts_succ. f_equal. lia.
      * lia.
      * intros i Hi. rewrite checkouts_emit_all_attempt.
        replace (S (checkouts s) + i)%nat with (checkouts s + S i)%nat
          by lia.
        apply Hr. lia.
    + specialize (Hr 0%nat ltac:(lia)). rewrite Nat.add_0_r in Hr. exact Hr.
Qed.

(** X4: timeouts and dead connections draw on one budget.  When each of the
    next [a] checkouts either times out or hands out a connection that fails
    validation, [getConn a] fails with the exhaustion error after exactly [a]
    checkouts, every dead connection closed and its slot given back. *)
Theorem getConn_exhausts_budget (E : Env) (a : Z) (s : State)
  (Ha : 0 <= a <= GoInt.max_int)
  (Hretry : forall i, (i < Z.to_nat a)%nat ->
                      retriable E (checkouts s + i) = true) :
  getConn E a s = Some (exhausted, after_attempts E (Z.to_nat a) s)
  /\ checkouts (after_attempts E (Z.to_nat a) s)
     = (checkouts s + Z.to_nat a)%nat.
Proof.
  split; [|apply checkouts_after_attempts].
  rewrite (getConn_after_retries E (Z.to_nat a)) by (auto; lia).
  replace (a - Z.of_nat (Z.to_nat a)) with 0 by lia.
  rewrite getConn_unfold. reflexivity.
Qed.

Lemma getConn_exhausts_budget_witness :
  let E := env_flaky in
  let s := booted E (sample_settings 1 1 ["s1:26379"]%string) in
  connectionAttempts E s = 2
  /\ GetConn E s = Some (exhausted, after_attempts E 2 s)
  /\ trace (after_attempts E 2 s)
     = trace s ++ [EvPoolGet; EvPoolGet; EvValidate (redisConn 1);
                   EvConnClose (redisConn 1); EvPoolPut None].
Proof.
  intros E s. split; [reflexivity|]. split; [|reflexivity].
  destruct (getConn_exhausts_budget E 2 s) as [H _].
  - unfold GoInt.max_int, GoInt.int_bits. lia.
  - intros i Hi. change (Z.to_nat 2) with 2%nat in Hi.
    destruct i as [|[|i]]; [reflexivity|reflexivity|lia].
  - exact H.
Defined.

(** X5: the first attempt that needs no retry decides the call.  When the
    next [n] checkouts are all retried after, [n] is below the budget and
    checkout [n + 1] is not one to retry after, [getConn] returns what that
    checkout decides, the connection if it validates and the error if it is
    not a timeout, after exactly [n + 1] checkouts. *)
Theorem getConn_first_decisive_attempt (E : Env) (a : Z) (n : nat)
  (s : State)
  (Ha : Z.of_nat n < a <= GoInt.max_int)
  (Hretry : forall i, (i < n)%nat -> retriable E (checkouts s + i) = true)
  (Hdecisive : retriable E (checkouts s + n) = false) :
  getConn E a s
  = Some (decided E (checkouts s + n), after_attempts E (S n) s)
  /\ checkouts (after_attempts E (S n) s) = (checkouts s + n + 1)%nat.
Proof.
  split; [|rewrite checkouts_after_attempts; lia].
  rewrite (getConn_after_retries E n) by (auto; lia).
  rewrite getConn_decided.
  - rewrite checkouts_after_attempts, <- after_attempts_snoc. reflexivity.
  - lia.
  - rewrite checkouts_after_attempts. exact Hdecisive.
Qed.

Lemma getConn_first_decisive_attempt_witness :
  let E := env_flaky_refused in
  let s := booted E (sample_settings 1 4 ["s1:26379"]%string) in
  connectionAttempts E s = 5
  /\ GetConn E s = Some ((None, Some refused_error), after_attempts E 3 s)
  /\ checkouts (after_attempts E 3 s) = 3%nat.
Proof.
  intros E s. split; [reflexivity|].
  destruct (getConn_first_decisive_attempt E 5 2 s) as [H1 H2].
  - unfold GoInt.max_int, GoInt.int_bits. lia.
  - intros i Hi. destruct i as [|[|i]]; [reflexivity|reflexivity|lia].
  - reflexivity.
  - split; [exact H1 | exact H2].
Defined.

(** X6: when [GetConn] asks nothing of the pool.  With a Sentinel address and
    a connection count of at most -1, or of the largest [int], the budget is
    not positive and [GetConn] fails with the exhaustion error without a
    checkout; in every other case the budget is at least one, and [GetConn]
    returns after at least one checkout, the first event it adds to the trace
    being that checkout. *)
Theorem GetConn_without_checkout (E : Env) (s : State)
  (Hint : GoInt.in_range (Connections (workerSettings s))) :
  (isSentinelConnection E (workerSettings s) = true ->
   Connections (workerSettings s) <= -1
   \/ Connections (workerSettings s) = GoInt.max_int ->
   GetConn E s = Some (exhausted, s))
  /\ (isSentinelConnection E (workerSettings s) = false
      \/ 0 <= Connections (workerSettings s) < GoInt.max_int ->
      1 <= connectionAttempts E s
      /\ exists r s' evs,
           GetConn E s = Some (r, s')
           /\ trace s' = trace s ++ EvPoolGet :: evs
           /\ (checkouts s + 1 <= checkouts s')%nat).
Proof.
  split.
  - intros Hs Hc. unfold GetConn, connectionAttempts. rewrite Hs.
    rewrite getConn_unfold.
    assert (GoInt.add (Connections (workerSettings s)) 1 <= 0).
    { destruct Hc as [Hc|Hc].
      - rewrite GoIntFacts.add_1_no_overflow; [lia|].
        unfold GoInt.in_range, GoInt.max_int, GoInt.min_int, GoInt.int_bits
          in *. lia.
      - rewrite Hc. vm_compute. discriminate. }
    destruct (Z.leb_spec (GoInt.add (Connections (workerSettings s)) 1) 0);
      [reflexivity | lia].
  - intros Hc.
    assert (Hb : 1 <= connectionAttempts E s).
    { unfold connectionAttempts.
      destruct (isSentinelConnection E (workerSettings s)); [|lia].
      destruct Hc as [Hc|Hc]; [discriminate|].
      rewrite GoIntFacts.add_1_no_overflow; [lia|].
      unfold GoInt.min_int, GoInt.int_bits. lia. }
    split; [exact Hb|].
    destruct (getConn_total E (connectionAttempts E s) s) as [r [s' H]].
    exists r, s'. unfold GetConn. rewrite H.
    rewrite getConn_unfold in H.
    destruct (Z.leb_spec (connectionAttempts E s) 0); [lia|].
    cbv zeta in H.
    assert (Hfrom : forall b mid r0 s0 tail,
              getConn E b mid = Some (r0, s0) ->
              trace mid = trace s ++ EvPoolGet :: tail ->
              (checkouts s + 1 <= checkouts mid)%nat ->
              exists evs, trace s0 = trace s ++ EvPoolGet :: evs
                          /\ (checkouts s + 1 <= checkouts s0)%nat).
    { intros b mid r0 s0 tail Hg Ht Hk.
      destruct (getConn_trace_grows E _ _ _ _ Hg) as [evs Hevs].
      apply getConn_attempts_bound in Hg.
      exists (tail ++ evs). split; [|lia].
      rewrite Hevs, Ht, <- app_assoc. reflexivity. }
    assert (Hdone : forall s0 tail,
              trace s0 = trace s ++ EvPoolGet :: tail ->
              (checkouts s + 1 <= checkouts s0)%nat ->
              exists evs,
                Some (r, s0) = Some (r, s0)
                /\ trace s0 = trace s ++ EvPoolGet :: evs
                /\ (checkouts s + 1 <= checkouts s0)%nat).
    { intros s0 tail Ht Hk. exists tail. auto. }
    destruct (pool_Get E (checkouts s)) as [e|c].
    + destruct (is_net_timeout e).
      * destruct (Hfrom _ _ _ _ [] H) as [evs [H1 H2]];
          [reflexivity | rewrite checkouts_emit_get; lia |].
        exists evs. auto.
      * inversion H; subst. apply (Hdone _ []); [reflexivity|].
        rewrite checkouts_emit_get. lia.
    + destruct (validateConnection E c); simpl in H.
      * inversion H; subst. apply (Hdone _ [EvValidate c]).
        -- simpl. rewrite <- app_assoc. reflexivity.
        -- rewrite checkouts_emit_other, checkouts_emit_get by reflexivity.
           lia.
      * destruct (Hfrom _ _ _ _
                    [EvValidate c; EvConnClose c; EvPoolPut None] H)
          as [evs [H1 H2]].
        -- simpl. rewrite <- !app_assoc. reflexivity.
        -- rewrite !checkouts_emit_other, checkouts_emit_get
             by reflexivity. lia.
        -- exists evs. auto.
Qed.

(** A process initialized with two connections; with a Sentinel address
    [GetConn] asks the pool, and after the connection count is set to -1 it
    no longer does. *)
Lemma GetConn_without_checkout_witness :
  let E := env_failover 0 in
  let s := booted E (sample_settings 1 2 ["s1:26379"]%string) in
  let s2 := SetSettings (sample_settings 1 (-1) ["s1:26379"]%string) s in
  GoInt.in_range (Connections (workerSettings s))
  /\ (exists r s' evs, GetConn E s = Some (r, s')
                       /\ trace s' = trace s ++ EvPoolGet :: evs
                       /\ (checkouts s + 1 <= checkouts s')%nat)
  /\ GoInt.in_range (Connections (workerSettings s2))
  /\ GetConn E s2 = Some (exhausted, s2).
Proof.
  intros E s s2.
  assert (Hint : GoInt.in_range (Connections (workerSettings s))).
  { unfold GoInt.in_range, GoInt.min_int, GoInt.max_int, GoInt.int_bits.
    simpl. lia. }
  assert (Hint2 : GoInt.in_range (Connections (workerSettings s2))).
  { unfold GoInt.in_range, GoInt.min_int, GoInt.max_int, GoInt.int_bits.
    simpl. lia. }
  split; [exact Hint|]. split.
  - destruct (GetConn_without_checkout E s Hint) as [_ H].
    destruct H as [_ H]; [|exact H].
    right. unfold GoInt.max_int, GoInt.int_bits. simpl. lia.
  - split; [exact Hint2|].
    destruct (GetConn_without_checkout E s2 Hint2) as [H _].
    apply H; [reflexivity | left; simpl; lia].
Defined.

(** ** Lifecycle, continued *)

Lemma forallb_acquisition_no_pool evs :
  forallb is_acquisition evs = true ->
  filter is_newpool evs = [] /\ filter is_poolclose evs = []
  /\ Forall (fun ev => ev <> EvPoolClose None) evs.
Proof.
  induction evs as [|ev evs IH]; simpl; [auto|].
  intros H. apply andb_true_iff in H. destruct H as [Hev Hall].
  destruct (IH Hall) as (H1 & H2 & H3).
  destruct ev; simpl in *; try discriminate; rewrite ?H1, ?H2;
    repeat split; auto; constructor; auto; discriminate.
Qed.

(** Events that neither build nor close a pool keep the invariant. *)
Lemma lifecycle_inv_grow s s' evs :
  initialized s' = initialized s ->
  pool s' = pool s ->
  trace s' = trace s ++ evs ->
  filter is_newpool evs = [] ->
  filter is_poolclose evs = [] ->
  lifecycle_inv s -> lifecycle_inv s'.
Proof.
  intros Hi Hp Ht Hn Hc (I1 & I2 & I3). unfold lifecycle_inv.
  rewrite Hi, Hp. split; [exact I1|]. split.
  - unfold pools_built, pools_closed.
    rewrite (count_app _ s s' evs Ht), (count_app _ s s' evs Ht), Hn, Hc.
    simpl. unfold pools_built, pools_closed in I2. lia.
  - rewrite Ht. apply Forall_app. split; [exact I3|].
    clear - Hc. induction evs as [|ev evs IH]; [constructor|].
    simpl in Hc. destruct ev; simpl in Hc; try discriminate;
      constructor; auto; discriminate.
Qed.

Lemma lifecycle_inv_Init (E : Env) s :
  lifecycle_inv s -> lifecycle_inv (snd (Init E s)).
Proof.
  intros Hinv. destruct (Init E s) as [[err|] s1] eqn:Hi; simpl.
  - destruct (Init_failure E s err s1 Hi) as [Hu Hcase].
    destruct Hcase as [[_ ->] | (lg & ws & _ & _ & ->)].
    + apply (lifecycle_inv_grow s _ [EvLoggerFromWriter]); auto.
    + apply (lifecycle_inv_grow s _ [EvLoggerFromWriter; EvFlags]); auto.
      simpl. rewrite <- app_assoc. reflexivity.
  - destruct (initialized s) eqn:Hu.
    + rewrite Init_initialized in Hi by assumption.
      inversion Hi; subst. exact Hinv.
    + destruct (Init_success E s s1 Hu Hi)
        as (lg & ws & p & _ & _ & _ & _ & Hs1).
      destruct Hinv as (I1 & I2 & I3). rewrite Hu in I2.
      unfold lifecycle_inv. rewrite Hs1. simpl.
      split; [discriminate|]. split.
      * unfold pools_built, pools_closed, count in *. simpl.
        rewrite !filter_app, !length_app. simpl. lia.
      * apply Forall_app. split; [exact I3|].
        repeat constructor; discriminate.
Qed.

Lemma lifecycle_inv_Close s : lifecycle_inv s -> lifecycle_inv (Close s).
Proof.
  intros (I1 & I2 & I3). unfold Close.
  destruct (initialized s) eqn:Hu; [|unfold lifecycle_inv; rewrite Hu; auto].
  unfold lifecycle_inv. simpl. split; [discriminate|]. split.
  - unfold pools_built, pools_closed, count in *. simpl.
    rewrite !filter_app, !length_app. simpl. lia.
  - apply Forall_app. split; [exact I3|]. constructor; [|constructor].
    specialize (I1 eq_refl). destruct (pool s); [discriminate|congruence].
Qed.

Lemma lifecycle_inv_run_call (E : Env) call s :
  lifecycle_inv s -> lifecycle_inv (run_call E call s).
Proof.
  intros Hinv. destruct call as [ws|rs| | | |conn]; simpl.
  - exact Hinv.
  - exact Hinv.
  - apply lifecycle_inv_Init; exact Hinv.
  - apply lifecycle_inv_Close; exact Hinv.
  - destruct (GetConn E s) as [[r s']|] eqn:Hg; [|exact Hinv].
    apply getConn_acquires in Hg.
    destruct Hg as (_ & Hp & _ & Hi & _ & evs & Ht & Hall).
    destruct (forallb_acquisition_no_pool evs Hall) as (H1 & H2 & _).
    eapply lifecycle_inv_grow; eauto.
  - apply (lifecycle_inv_grow s _ [EvPoolPut (Some conn)]); auto.
Qed.

(** X7: invariants I1 and I2 of the lifecycle hold after every sequence of
    calls to [SetSettings], [SetRedisSettings], [Init], [Close], [GetConn]
    and [PutConn] made on a fresh process: while [initialized] the pool
    variable is set, exactly one pool built has not been closed, and none
    otherwise; [Close] has never been called on a nil pool. *)
Theorem lifecycle_invariant (E : Env) (ws : WorkerSettings)
  (calls : list Call) :
  let s := run_calls E calls (fresh ws) in
  (initialized s = true -> exists p, pool s = Some p)
  /\ pools_built s
     = (pools_closed s + if initialized s then 1 else 0)%nat
  /\ Forall (fun ev => ev <> EvPoolClose None) (trace s).
Proof.
  cbv zeta.
  assert (H : lifecycle_inv (run_calls E calls (fresh ws))).
  { unfold run_calls.
    assert (H0 : lifecycle_inv (fresh ws)).
    { unfold lifecycle_inv; simpl.
      split; [discriminate|]. split; [reflexivity|constructor]. }
    revert H0. generalize (fresh ws).
    induction calls as [|call calls IH]; intros s Hs; simpl; [exact Hs|].
    apply IH. apply lifecycle_inv_run_call. exact Hs. }
  destruct H as (I1 & I2 & I3). split; [|split; assumption].
  intros Hi. specialize (I1 Hi).
  destruct (pool (run_calls E calls (fresh ws))) as [p|];
    [eauto | contradiction].
Qed.

(** X8: once the process is initialized, only [Close] makes it give up its
    pool: after any calls to the setters, [Init], [GetConn] and [PutConn] the
    process is still initialized, with the same pool and no further pool
    built, whatever settings were assigned in between. *)
Theorem pool_fixed_until_Close (E : Env) (s : State) (calls : list Call)
  (Hinit : initialized s = true)
  (Hcalls : Forall (fun call => call <> CallClose) calls) :
  initialized (run_calls E calls s) = true
  /\ pool (run_calls E calls s) = pool s
  /\ pools_built (run_calls E calls s) = pools_built s
  /\ pools_closed (run_calls E calls s) = pools_closed s.
Proof.
  revert s Hinit. unfold run_calls.
  induction Hcalls as [|call calls Hcall _ IH]; intros s Hinit; simpl;
    [auto|].
  assert (Hstep : initialized (run_call E call s) = true
                  /\ pool (run_call E call s) = pool s
                  /\ pools_built (run_call E call s) = pools_built s
                  /\ pools_closed (run_call E call s) = pools_closed s).
  { destruct call as [ws|rs| | | |conn]; cbn [run_call]; auto.
    - rewrite Init_initialized by assumption. simpl. auto.
    - contradiction.
    - destruct (GetConn E s) as [[r s']|] eqn:Hg; [|auto].
      apply getConn_acquires in Hg.
      destruct Hg as (_ & Hp & _ & Hi & _ & evs & Ht & Hall).
      destruct (forallb_acquisition_no_pool evs Hall) as (H1 & H2 & _).
      unfold pools_built, pools_closed.
      rewrite !(count_app _ s s' evs Ht), H1, H2. simpl.
      repeat split; try congruence; lia.
    - unfold PutConn, pools_built, pools_closed. rewrite !count_emit. simpl.
      repeat split; auto; lia. }
  destruct Hstep as (H1 & H2 & H3 & H4).
  destruct (IH _ H1) as (J1 & J2 & J3 & J4).
  repeat split; congruence.
Qed.

Lemma pool_fixed_until_Close_witness :
  let E := env_failover 0 in
  let s := booted E (sample_settings 3 2 []) in
  let calls := [CallSetSettings (sample_settings 1 7 ["s1:26379"]%string);
                CallInit; CallGetConn; CallPutConn (redisConn 0)] in
  initialized s = true
  /\ option_map rp_capacity (pool (run_calls E calls s)) = Some 2
  /\ Connections (workerSettings (run_calls E calls s)) = 7
  /\ connectionAttempts E (run_calls E calls s) = 8.
Proof.
  intros E s calls.
  destruct (pool_fixed_until_Close E s calls eq_refl) as (_ & Hp & _).
  { repeat constructor; discriminate. }
  split; [reflexivity|]. split; [rewrite Hp; reflexivity|].
  split; reflexivity.
Defined.

Lemma set_RedisSettings_same ws : set_RedisSettings (RedisSettings_ ws) ws = ws.
Proof. destruct ws; reflexivity. Qed.

Lemma set_rs_URI_same rs : set_rs_URI (rs_URI rs) rs = rs.
Proof. destruct rs; reflexivity. Qed.

(** X9: what a first successful [Init] builds.  The pool is built from the
    store address of the settings with capacity and maximal capacity both
    [Connections], unchecked, and an idle lifetime of one minute; of the
    settings [flags] left, [Init] itself changes nothing but
    [RedisSettings.URI], and not even that when the top-level [URI] is
    empty: the address given with [SetRedisSettings] is then used as it is. *)
Theorem Init_builds_pool_from_settings (E : Env) (s s1 : State)
  (Hfresh : initialized s = false)
  (Hinit : Init E s = (None, s1)) :
  let ws := snd (flags E (workerSettings s)) in
  (exists p,
     pool s1 = Some p
     /\ rp_settings p = RedisSettings_ (workerSettings s1)
     /\ rp_capacity p = Connections ws
     /\ rp_maxCap p = Connections ws
     /\ rp_idleTimeout p = 60 * 1000000000)
  /\ ctx s1 = Some context_Background
  /\ workerSettings s1
     = set_RedisSettings
         (set_rs_URI (rs_URI (RedisSettings_ (workerSettings s1)))
                     (RedisSettings_ ws)) ws
  /\ (URI ws = EmptyString -> workerSettings s1 = ws).
Proof.
  destruct (Init_success E s s1 Hfresh Hinit)
    as (lg & ws & p & _ & Hf & Hws & Hp & Hs1).
  rewrite Hf. cbv zeta. simpl snd.
  split; [|split; [|split]].
  - exists p. split; [rewrite Hs1; reflexivity|].
    rewrite Hp. repeat split; reflexivity.
  - rewrite Hs1. reflexivity.
  - rewrite Hws.
    destruct (negb (String.eqb (URI ws) EmptyString)); simpl.
    + reflexivity.
    + rewrite set_rs_URI_same, set_RedisSettings_same. reflexivity.
  - intros Hu. rewrite Hws, Hu. reflexivity.
Qed.

Lemma Init_builds_pool_from_settings_witness :
  let E := env_failover 0 in
  let rs := sample_redis ["s1:26379"]%string in
  let s := SetRedisSettings rs (fresh (sample_settings 3 2 [])) in
  let s1 := snd (Init E s) in
  initialized s = false
  /\ workerSettings s1 = workerSettings s
  /\ pool s1 = Some (mkResourcePool rs 2 2 60000000000).
Proof.
  intros E rs s s1.
  destruct (Init_builds_pool_from_settings E s s1 eq_refl eq_refl)
    as (_ & _ & _ & H).
  split; [reflexivity|]. split; [apply H; reflexivity|]. reflexivity.
Defined.

(** X10: idempotence ends at [Close].  An [Init] that succeeds after a
    [Close] of an initialized process has run every step again: the old pool
    was closed, the logger rebuilt, [flags] run a second time on the settings
    the first run left, and a new pool built. *)
Theorem Close_then_Init_rebuilds (E : Env) (s s3 : State)
  (Hinit : initialized s = true)
  (Hagain : Init E (Close s) = (None, s3)) :
  exists p,
    trace s3 = trace s ++ [EvPoolClose (pool s); EvLoggerFromWriter; EvFlags;
                           EvNewRedisPool p]
    /\ pool s3 = Some p
    /\ initialized s3 = true
    /\ pools_built s3 = S (pools_built s)
    /\ pools_closed s3 = S (pools_closed s)
    /\ fst (flags E (workerSettings s)) = None.
Proof.
  assert (Hc : Close s = set_initialized false (emit (EvPoolClose (pool s)) s)).
  { unfold Close. rewrite Hinit. reflexivity. }
  assert (Hu : initialized (Close s) = false) by apply Close_uninitialized.
  destruct (Init_success E (Close s) s3 Hu Hagain)
    as (lg & ws & p & _ & Hf & _ & _ & Hs3).
  exists p.
  assert (Ht : trace s3 = trace s ++ [EvPoolClose (pool s);
                 EvLoggerFromWriter; EvFlags; EvNewRedisPool p]).
  { rewrite Hs3. simpl. rewrite Hc. simpl. rewrite <- app_assoc.
    reflexivity. }
  split; [exact Ht|]. split; [rewrite Hs3; reflexivity|].
  split; [rewrite Hs3; reflexivity|].
  unfold pools_built, pools_closed.
  rewrite !(count_app _ s s3 _ Ht). simpl.
  split; [lia|]. split; [lia|].
  rewrite Hc in Hf. simpl in Hf. rewrite Hf. reflexivity.
Qed.

Lemma Close_then_Init_rebuilds_witness :
  let E := env_failover 0 in
  let s := booted E (sample_settings 3 2 []) in
  let s3 := snd (Init E (Close s)) in
  initialized s = true
  /\ pools_built s3 = 2%nat
  /\ pools_closed s3 = 1%nat
  /\ initialized s3 = true.
Proof.
  intros E s s3.
  destruct (Close_then_Init_rebuilds E s s3 eq_refl eq_refl)
    as (p & _ & _ & Hi & Hb & Hc & _).
  split; [reflexivity|]. split; [exact Hb|]. split; [exact Hc|exact Hi].
Defined.

(** X11: the setters overwrite, they do not merge.  [SetSettings] discards a
    store address assigned before it, each setter forgets its own earlier
    call, and the two commute exactly when the record given to [SetSettings]
    already carries the store address given to [SetRedisSettings]. *)
Theorem setters_last_write_wins (ws ws' : WorkerSettings)
  (rs rs' : RedisSettings) (s : State) :
  SetSettings ws (SetRedisSettings rs s) = SetSettings ws s
  /\ SetSettings ws' (SetSettings ws s) = SetSettings ws' s
  /\ SetRedisSettings rs' (SetRedisSettings rs s) = SetRedisSettings rs' s
  /\ RedisSettings_ (workerSettings (SetRedisSettings rs (SetSettings ws s)))
     = rs
  /\ (SetRedisSettings rs (SetSettings ws s)
      = SetSettings ws (SetRedisSettings rs s)
      <-> RedisSettings_ ws = rs).
Proof.
  repeat split; try reflexivity.
  - intros H. apply (f_equal (fun x => RedisSettings_ (workerSettings x))) in H.
    simpl in H. congruence.
  - intros H. unfold SetRedisSettings, SetSettings, set_workerSettings.
    simpl. rewrite <- H, set_RedisSettings_same. reflexivity.
Qed.

(** ** Orchestration, continued *)

Lemma ids_nonpos n : n <= 0 -> ids n = [].
Proof. intros H. unfold ids. replace (Z.to_nat n) with 0%nat by lia. reflexivity. Qed.

Lemma ids_clamp n : ids (Z.max 0 n) = ids n.
Proof. unfold ids. f_equal. lia. Qed.

Lemma length_ids n : List.length (ids n) = Z.to_nat n.
Proof. apply length_ids_from. Qed.

Lemma prefix_inv_reachable (E : Env) s :
  let ws := workerSettings (snd (Init E s)) in
  Concurrency ws <= GoInt.max_int ->
  forall c, reachable E (Work_entry s) c -> prefix_inv E s ws c.
Proof.
  intros ws HN. apply reachable_invariant.
  - unfold prefix_inv; simpl. auto.
  - intros c c' Hinv Hstep.
    destruct Hstep as [c c' Hw | c before w after Hrun | c];
      [|exact Hinv|exact Hinv].
    unfold prefix_inv in Hinv. unfold Work_step in Hw.
    destruct (pc c) as [|j id| |r] eqn:Hpc.
    + destruct Hinv as [Hst Hs0]. rewrite Hst in Hw.
      assert (Hnil : constructed E (Queues ws) (ids 0) (started c)).
      { rewrite Hs0. constructor. }
      destruct (Init E s) as [[e|] s1] eqn:Hi.
      * inversion Hw; subst c'; clear Hw. unfold prefix_inv; simpl.
        exists 0. split; [lia|exact Hnil].
      * cbn [emit workerSettings] in Hw.
        destruct (newPoller E _ _) as [p|e];
          inversion Hw; subst c'; clear Hw; unfold prefix_inv; simpl.
        -- repeat split; auto; lia.
        -- exists 0. split; [lia|exact Hnil].
    + destruct Hinv as (Hid & Hws & Hst).
      rewrite Hws in Hw.
      destruct (Z.ltb_spec id (Concurrency ws)).
      * cbv zeta in Hw. cbn [emit workerSettings] in Hw.
        rewrite Hws in Hw.
        destruct (newWorker E (Itoa id) (Queues ws)) as [w|e] eqn:Hnw;
          inversion Hw; subst c'; clear Hw; unfold prefix_inv; simpl.
        -- rewrite GoIntFacts.add_1_no_overflow
             by (unfold GoInt.min_int, GoInt.int_bits in *; lia).
           repeat split; auto; try lia.
           rewrite ids_succ by lia. apply Forall2_app; [exact Hst|].
           constructor; [exact Hnw|constructor].
        -- exists id. split; [lia|exact Hst].
      * inversion Hw; subst c'; clear Hw. unfold prefix_inv; simpl.
        replace (ids (Concurrency ws)) with (ids id); [exact Hst|].
        unfold ids. f_equal. lia.
    + destruct (wg_counter c =? 0); [|discriminate].
      inversion Hw; subst c'; clear Hw.
      unfold prefix_inv; simpl. exact Hinv.
    + discriminate.
Qed.

(** X12: [Work] never starts a worker out of turn.  In every state of every
    run, the workers started so far are the results of [newWorker] for the
    identities 0, 1, ..., k-1, in this order, for some k up to [Concurrency]:
    never more than [Concurrency] workers, none twice, none skipped; k is
    [Concurrency] once [Work] waits, and smaller when [Work] has returned an
    error. *)
Theorem Work_starts_workers_in_turn (E : Env) (s : State) (c : Sys)
  (Hint : Concurrency (workerSettings (snd (Init E s))) <= GoInt.max_int)
  (Hreach : reachable E (Work_entry s) c) :
  let ws := workerSettings (snd (Init E s)) in
  exists k,
    0 <= k <= Z.max 0 (Concurrency ws)
    /\ constructed E (Queues ws) (ids k) (started c)
    /\ List.length (started c) = Z.to_nat k
    /\ (pc c = AtWait \/ pc c = Returned None ->
        k = Z.max 0 (Concurrency ws))
    /\ (forall err, pc c = Returned (Some err) ->
                    k < Z.max 1 (Concurrency ws)).
Proof.
  intros ws.
  pose proof (prefix_inv_reachable E s Hint c Hreach) as Hinv.
  fold ws in Hinv. unfold prefix_inv in Hinv.
  assert (Hlen : forall k, constructed E (Queues ws) (ids k) (started c) ->
                           List.length (started c) = Z.to_nat k).
  { intros k H. apply Forall2_length in H. rewrite <- H. apply length_ids. }
  destruct (pc c) as [|j id| |[err|]] eqn:Hpc.
  - destruct Hinv as [_ Hs0]. exists 0.
    assert (Hc : constructed E (Queues ws) (ids 0) (started c))
      by (rewrite Hs0; constructor).
    split; [lia|]. split; [exact Hc|]. split; [apply Hlen; exact Hc|].
    split; [intros [H|H]; discriminate | intros e H; discriminate].
  - destruct Hinv as (Hid & _ & Hc). exists id.
    split; [exact Hid|]. split; [exact Hc|]. split; [apply Hlen; exact Hc|].
    split; [intros [H|H]; discriminate | intros e H; discriminate].
  - exists (Z.max 0 (Concurrency ws)). rewrite ids_clamp.
    split; [lia|]. split; [exact Hinv|].
    split; [rewrite (Hlen _ Hinv); lia|].
    split; [reflexivity | intros e H; discriminate].
  - destruct Hinv as (k & Hk & Hc). exists k.
    split; [lia|]. split; [exact Hc|]. split; [apply Hlen; exact Hc|].
    split; [intros [H|H]; discriminate | intros e _; lia].
  - exists (Z.max 0 (Concurrency ws)). rewrite ids_clamp.
    split; [lia|]. split; [exact Hinv|].
    split; [rewrite (Hlen _ Hinv); lia|].
    split; [reflexivity | intros e H; discriminate].
Qed.

Lemma Work_starts_workers_in_turn_witness :
  let E := env_worker_fails in
  let s := fresh (sample_settings 4 2 []) in
  let c := Work_run E 9 (Work_entry s) in
  pc c = Returned (Some (plainError "no hostname"))
  /\ exists k, 0 <= k < 4
               /\ constructed E ["a"; "b"]%string (ids k) (started c)
               /\ List.length (started c) = Z.to_nat k.
Proof.
  intros E s c.
  assert (Hreach : reachable E (Work_entry s) c).
  { apply Work_run_reachable. apply reach_here. }
  destruct (Work_starts_workers_in_turn E s c) as (k & Hk & Hc & Hl & _ & He).
  - unfold GoInt.max_int, GoInt.int_bits. simpl. lia.
  - exact Hreach.
  - split; [reflexivity|]. exists k.
    specialize (He _ eq_refl). simpl in He, Hk.
    split; [lia|]. split; [exact Hc|exact Hl].
Defined.

(** X13: when [Init] fails, [Work] returns that error and does nothing else:
    in every run the state is the one [Init] left, so no signal handler, no
    poller, no worker and no [Close]; nothing is started. *)
Theorem Work_stops_at_failed_Init (E : Env) (s s1 : State) (err : error)
  (c : Sys)
  (Hfail : Init E s = (Some err, s1))
  (Hreach : reachable E (Work_entry s) c) :
  started c = []
  /\ ((pc c = AtEntry /\ st c = s)
      \/ (pc c = Returned (Some err) /\ st c = s1))
  /\ Work_run E 1 (Work_entry s) = goto (Returned (Some err)) s1 (Work_entry s).
Proof.
  assert (Hstep1 : forall c0, pc c0 = AtEntry -> st c0 = s ->
            Work_step E c0 = Some (goto (Returned (Some err)) s1 c0)).
  { intros c0 Hpc Hst. unfold Work_step. rewrite Hpc, Hst, Hfail.
    reflexivity. }
  assert (Hinv : started c = []
                 /\ ((pc c = AtEntry /\ st c = s)
                     \/ (pc c = Returned (Some err) /\ st c = s1))).
  { revert c Hreach. apply reachable_invariant; [simpl; auto|].
    intros c c' (Hs & Hcase) Hstep.
    destruct Hstep as [c c' Hw | c before w after Hrun | c]; [|auto|auto].
    destruct Hcase as [[Hpc Hst]|[Hpc Hst]].
    - rewrite (Hstep1 c Hpc Hst) in Hw. inversion Hw; subst c'; simpl. auto.
    - unfold Work_step in Hw. rewrite Hpc in Hw. discriminate. }
  destruct Hinv as [Hs Hcase].
  split; [exact Hs|]. split; [exact Hcase|].
  simpl. rewrite (Hstep1 (Work_entry s)); reflexivity.
Qed.

Lemma Work_stops_at_failed_Init_witness :
  let E := env_no_queues in
  let s := fresh (sample_settings 3 2 []) in
  let c := fire_quit (Work_run E 5 (Work_entry s)) in
  pc c = Returned (Some (plainError "you must specify at least one queue"))
  /\ started c = []
  /\ trace (st c) = [EvLoggerFromWriter; EvFlags].
Proof.
  intros E s c.
  assert (Hreach : reachable E (Work_entry s) c).
  { eapply reach_step; [|apply step_quit].
    apply Work_run_reachable. apply reach_here. }
  destruct (Work_stops_at_failed_Init E s (snd (Init E s))
              (plainError "you must specify at least one queue") c
              eq_refl Hreach) as (Hs & _ & _).
  split; [reflexivity|]. split; [exact Hs|reflexivity].
Defined.

(** X14: when the poller cannot be built, [Work] returns that error after the
    deferred [Close]: in every run the state at the return is the one after
    [signals], [newPoller] and [Close], the process is uninitialized again,
    and no worker was constructed or started. *)
Theorem Work_closes_at_failed_poller (E : Env) (s s1 : State) (err : error)
  (c : Sys)
  (Hinit : Init E s = (None, s1))
  (Hpoller : newPoller E (Queues (workerSettings s1))
                       (IsStrict (workerSettings s1)) = Err err)
  (Hreach : reachable E (Work_entry s) c) :
  let s2 := Close (emit (EvNewPoller (Queues (workerSettings s1))
                                     (IsStrict (workerSettings s1)))
                        (emit EvSignals s1)) in
  started c = []
  /\ ((pc c = AtEntry /\ st c = s)
      \/ (pc c = Returned (Some err) /\ st c = s2))
  /\ initialized s2 = false
  /\ Work_run E 1 (Work_entry s) = goto (Returned (Some err)) s2 (Work_entry s).
Proof.
  intros s2.
  assert (Hstep1 : forall c0, pc c0 = AtEntry -> st c0 = s ->
            Work_step E c0 = Some (goto (Returned (Some err)) s2 c0)).
  { intros c0 Hpc Hst. unfold Work_step. rewrite Hpc, Hst, Hinit.
    cbv zeta. cbn [emit workerSettings]. rewrite Hpoller. reflexivity. }
  assert (Hinv : started c = []
                 /\ ((pc c = AtEntry /\ st c = s)
                     \/ (pc c = Returned (Some err) /\ st c = s2))).
  { revert c Hreach. apply reachable_invariant; [simpl; auto|].
    intros c c' (Hs & Hcase) Hstep.
    destruct Hstep as [c c' Hw | c before w after Hrun | c]; [|auto|auto].
    destruct Hcase as [[Hpc Hst]|[Hpc Hst]].
    - rewrite (Hstep1 c Hpc Hst) in Hw. inversion Hw; subst c'; simpl. auto.
    - unfold Work_step in Hw. rewrite Hpc in Hw. discriminate. }
  destruct Hinv as [Hs Hcase].
  split; [exact Hs|]. split; [exact Hcase|].
  split; [apply Close_uninitialized|].
  simpl. rewrite (Hstep1 (Work_entry s)); reflexivity.
Qed.

Lemma Work_closes_at_failed_poller_witness :
  let E := env_no_poller in
  let s := fresh (sample_settings 3 2 []) in
  let c := Work_run E 5 (Work_entry s) in
  pc c = Returned (Some (plainError "no poller"))
  /\ started c = []
  /\ initialized (st c) = false
  /\ pools_closed (st c) = 1%nat.
Proof.
  intros E s c.
  assert (Hreach : reachable E (Work_entry s) c).
  { apply Work_run_reachable. apply reach_here. }
  destruct (Work_closes_at_failed_poller E s (snd (Init E s))
              (plainError "no poller") c eq_refl eq_refl Hreach)
    as (Hs & _ & _).
  split; [reflexivity|]. split; [exact Hs|]. split; reflexivity.
Defined.

(** X15: a [Concurrency] of zero or less is accepted: [Work] starts the
    poller, starts no worker in any run, finds the barrier at zero, and
    returns nil at once after closing the pool. *)
Theorem Work_without_workers (E : Env) (s s1 : State) (p : poller)
  (Hinit : Init E s = (None, s1))
  (Hpoller : newPoller E (Queues (workerSettings s1))
                       (IsStrict (workerSettings s1)) = Ok p)
  (Hzero : Concurrency (workerSettings s1) <= 0) :
  Work_run E 3 (Work_entry s)
  = goto (Returned None)
      (Close
         (emit (EvWait monitor)
            (emit (EvPoll p (Interval (workerSettings s1)))
               (emit (EvNewPoller (Queues (workerSettings s1))
                                  (IsStrict (workerSettings s1)))
                  (emit EvSignals s1)))))
      (Work_entry s)
  /\ forall c, reachable E (Work_entry s) c -> started c = [].
Proof.
  split.
  - simpl. unfold Work_step at 1. simpl pc. cbv iota. simpl st.
    rewrite Hinit. cbv zeta. cbn [emit workerSettings]. rewrite Hpoller.
    unfold Work_step at 1. simpl pc. cbv iota zeta. simpl st.
    cbn [emit workerSettings].
    destruct (Z.ltb_spec 0 (Concurrency (workerSettings s1))); [lia|].
    unfold Work_step. simpl. reflexivity.
  - intros c Hreach.
    pose proof (prefix_inv_reachable E s) as Hinv. cbv zeta in Hinv.
    rewrite Hinit in Hinv. simpl snd in Hinv.
    specialize (Hinv ltac:(unfold GoInt.max_int, GoInt.int_bits; lia)
                     c Hreach).
    unfold prefix_inv in Hinv.
    assert (Hnil : forall k, k <= 0 ->
              constructed E (Queues (workerSettings s1)) (ids k) (started c)
              -> started c = []).
    { intros k Hk H. rewrite ids_nonpos in H by exact Hk. inversion H.
      reflexivity. }
    destruct (pc c) as [|j id| |[err|]].
    + tauto.
    + destruct Hinv as (Hid & _ & Hc). apply (Hnil id); [lia|exact Hc].
    + apply (Hnil _ Hzero Hinv).
    + destruct Hinv as (k & Hk & Hc). apply (Hnil k); [lia|exact Hc].
    + apply (Hnil _ Hzero Hinv).
Qed.

Lemma Work_without_workers_witness :
  let E := env_failover 0 in
  let s := fresh (sample_settings 0 2 []) in
  let c := Work_run E 3 (Work_entry s) in
  pc c = Returned None
  /\ started c = []
  /\ initialized (st c) = false.
Proof.
  intros E s c.
  destruct (Work_without_workers E s (snd (Init E s))
              (mkPoller ["a"; "b"]%string true) eq_refl eq_refl)
    as [Hrun Hnone].
  { simpl. lia. }
  split; [reflexivity|]. split; [|reflexivity].
  apply Hnone. apply Work_run_reachable. apply reach_here.
Defined.

Lemma lifecycle_inv_emit ev s :
  is_newpool ev = false -> is_poolclose ev = false ->
  lifecycle_inv s -> lifecycle_inv (emit ev s).
Proof.
  intros Hn Hc. apply (lifecycle_inv_grow s _ [ev]); auto; simpl.
  - rewrite Hn. reflexivity.
  - rewrite Hc. reflexivity.
Qed.

(** X16: [Work] cleans up after itself.  Started in a state that satisfies
    the lifecycle invariant, every run keeps it, and whenever [Work] has
    returned, with or without an error, the process is uninitialized and
    every pool ever built has been closed. *)
Theorem Work_returns_uninitialized (E : Env) (s : State) (c : Sys)
  (r : option error)
  (Hinv : lifecycle_inv s)
  (Hreach : reachable E (Work_entry s) c)
  (Hret : pc c = Returned r) :
  initialized (st c) = false
  /\ pools_built (st c) = pools_closed (st c)
  /\ lifecycle_inv (st c).
Proof.
  assert (H : lifecycle_inv (st c)
              /\ (forall r0, pc c = Returned r0 -> initialized (st c) = false)).
  { clear r Hret. revert c Hreach. apply reachable_invariant.
    - simpl. split; [exact Hinv | discriminate].
    - intros c c' (Hl & Hr) Hstep.
      destruct Hstep as [c c' Hw | c before w after Hrun | c];
        [|simpl; auto|simpl; auto].
      unfold Work_step in Hw. destruct (pc c) as [|j id| |r0] eqn:Hpc.
      + pose proof (lifecycle_inv_Init E (st c) Hl) as Hl1.
        destruct (Init E (st c)) as [[e|] s1] eqn:Hi; simpl in Hl1.
        * inversion Hw; subst c'; simpl. split; [exact Hl1|]. intros _ _.
          destruct (Init_failure E _ _ _ Hi)
            as [_ [[_ ->] | (lg & ws & _ & _ & ->)]]; simpl;
            destruct (Init_failure E _ _ _ Hi) as [Hu _]; exact Hu.
        * cbn [emit workerSettings] in Hw.
          assert (Hl2 : lifecycle_inv
                    (emit (EvNewPoller (Queues (workerSettings s1))
                                       (IsStrict (workerSettings s1)))
                          (emit EvSignals s1))).
          { repeat apply lifecycle_inv_emit; auto. }
          destruct (newPoller E _ _) as [p|e];
            inversion Hw; subst c'; simpl.
          -- split; [apply lifecycle_inv_emit; auto | discriminate].
          -- split; [apply lifecycle_inv_Close; exact Hl2|].
             intros _ _. apply Close_uninitialized.
      + destruct (id <? _).
        * cbv zeta in Hw.
          assert (Hl2 : lifecycle_inv
                    (emit (EvNewWorker (Itoa id)
                             (Queues (workerSettings (st c)))) (st c))).
          { apply lifecycle_inv_emit; auto. }
          destruct (newWorker E _ _) as [w|e];
            inversion Hw; subst c'; simpl.
          -- split; [apply lifecycle_inv_emit; auto | discriminate].
          -- split; [apply lifecycle_inv_Close; exact Hl2|].
             intros _ _. apply Close_uninitialized.
        * inversion Hw; subst c'; simpl. split; [exact Hl | discriminate].
      + destruct (wg_counter c =? 0); [|discriminate].
        inversion Hw; subst c'; simpl.
        split; [|intros _ _; apply Close_uninitialized].
        apply lifecycle_inv_Close. apply lifecycle_inv_emit; auto.
      + discriminate. }
  destruct H as [Hl Hr]. specialize (Hr r Hret).
  split; [exact Hr|]. split; [|exact Hl].
  destruct Hl as (_ & Hb & _). rewrite Hr in Hb. lia.
Qed.

Lemma Work_returns_uninitialized_witness :
  let E := env_worker_fails in
  let s := booted E (sample_settings 2 2 []) in
  let c := Work_run E 3 (Work_entry s) in
  initialized s = true
  /\ pc c = Returned (Some (plainError "no hostname"))
  /\ initialized (st c) = false
  /\ pools_built (st c) = pools_closed (st c).
Proof.
  intros E s c.
  assert (Hinv : lifecycle_inv s).
  { unfold lifecycle_inv. split; [discriminate|].
    split; [reflexivity|]. repeat constructor; discriminate. }
  assert (Hreach : reachable E (Work_entry s) c).
  { apply Work_run_reachable. apply reach_here. }
  destruct (Work_returns_uninitialized E s c _ Hinv Hreach eq_refl)
    as (H1 & H2 & _).
  split; [reflexivity|]. split; [reflexivity|]. split; assumption.
Defined.

Lemma Itoa_inj a b : Itoa a = Itoa b -> a = b.
Proof.
  unfold Itoa. intros H.
  assert (Hnn : forall z, Z.to_int z <> Decimal.Pos Decimal.Nil
                          /\ Z.to_int z <> Decimal.Neg Decimal.Nil).
  { intros z. split; intros Hz;
      pose proof (DecimalZ.of_to z) as Ho; rewrite Hz in Ho; simpl in Ho;
      subst z; discriminate. }
  apply DecimalZ.to_int_inj.
  assert (Some (Z.to_int a) = Some (Z.to_int b)) as Hs.
  { rewrite <- (NilZero.isi (Z.to_int a)) by apply Hnn.
    rewrite <- (NilZero.isi (Z.to_int b)) by apply Hnn.
    rewrite H. reflexivity. }
  inversion Hs. reflexivity.
Qed.

Lemma NoDup_ids_from k : forall id, NoDup (ids_from id k).
Proof.
  induction k as [|k IH]; intros id; simpl; constructor; [|apply IH].
  rewrite in_ids_from. lia.
Qed.

(** X18: the workers get pairwise distinct identities: [strconv.Itoa] maps
    different integers to different strings, so the identities [Work] passes
    to [newWorker], the decimal strings of 0, ..., n-1, are all different. *)
Theorem worker_identities_distinct (n : Z) :
  NoDup (map Itoa (ids n))
  /\ List.length (map Itoa (ids n)) = Z.to_nat n
  /\ forall a b, Itoa a = Itoa b -> a = b.
Proof.
  split; [|split].
  - unfold ids. generalize (NoDup_ids_from (Z.to_nat n) 0).
    generalize (ids_from 0 (Z.to_nat n)). intros l Hl.
    induction Hl as [|x l Hx Hl IH]; simpl; constructor; [|exact IH].
    rewrite in_map_iff. intros (y & Hy & Hin).
    apply Itoa_inj in Hy. subst y. contradiction.
  - rewrite length_map. apply length_ids.
  - exact Itoa_inj.
Qed.

Lemma drain_spec (E : Env) c0 workers : forall c,
  running c = workers ->
  reachable E c0 c ->
  reachable E c0 (drain workers c)
  /\ running (drain workers c) = []
  /\ signaled (drain workers c) = signaled c ++ workers
  /\ started (drain workers c) = started c
  /\ st (drain workers c) = st c
  /\ pc (drain workers c) = pc c
  /\ wg_counter (drain workers c)
     = wg_counter c - Z.of_nat (List.length workers).
Proof.
  induction workers as [|w rest IH]; intros c Hrun Hreach; simpl drain.
  - rewrite app_nil_r. simpl. repeat split; auto. lia.
  - destruct (IH (worker_exit [] w rest c)) as (H1 & H2 & H3 & H4 & H5 & H6 & H7).
    + reflexivity.
    + eapply reach_step; [exact Hreach|]. apply step_exit. exact Hrun.
    + rewrite H3, H4, H5, H6, H7. simpl.
      rewrite <- app_assoc. simpl. repeat split; auto. lia.
Qed.

Lemma Init_ok_initialized (E : Env) s s1 :
  Init E s = (None, s1) -> initialized s1 = true.
Proof.
  intros H. destruct (initialized s) eqn:Hi.
  - rewrite Init_initialized in H by exact Hi. inversion H; subst. exact Hi.
  - destruct (Init_success E s s1 Hi H) as (lg & ws & p & _ & _ & _ & _ & ->).
    reflexivity.
Qed.

Lemma vars_emit_all evs s :
  pool (emit_all evs s) = pool s
  /\ initialized (emit_all evs s) = initialized s.
Proof.
  revert s; induction evs as [|ev evs IH]; intros s; [simpl; auto|].
  change (emit_all (ev :: evs) s) with (emit_all evs (emit ev s)).
  destruct (IH (emit ev s)) as [H1 H2]. rewrite H1, H2. auto.
Qed.

Lemma worker_events_no_pool Q jobs mk l :
  filter is_newpool (flat_map (worker_events Q jobs mk) l) = []
  /\ filter is_poolclose (flat_map (worker_events Q jobs mk) l) = [].
Proof. induction l as [|i l [IH1 IH2]]; simpl; auto. Qed.

(** X19: the return of [Work] through the barrier can be reached.  When
    [Init], the poller and every worker construction succeed there is a run in
    which all [Concurrency] workers are started, each leaves and signals, and
    [Work] then returns nil: the calls made since [Init] are those of the
    setup, of the loop, the wait and, last, [Close] on the pool of the
    process, which leaves it uninitialized with one more pool closed and none
    built. *)
Theorem Work_can_complete (E : Env) (s s1 : State) (p : poller)
  (mk : Z -> worker) (N : Z)
  (Hinit : Init E s = (None, s1))
  (HN : Concurrency (workerSettings s1) = N)
  (Hint : N <= GoInt.max_int)
  (Hpoller : newPoller E (Queues (workerSettings s1))
                       (IsStrict (workerSettings s1)) = Ok p)
  (Hworkers : forall i, 0 <= i < N ->
      newWorker E (Itoa i) (Queues (workerSettings s1)) = Ok (mk i)) :
  let Q := Queues (workerSettings s1) in
  let jobs := mkJobStream p (Interval (workerSettings s1)) quitChan in
  exists c,
    reachable E (Work_entry s) c
    /\ pc c = Returned None
    /\ started c = map mk (ids N)
    /\ signaled c = started c
    /\ running c = []
    /\ wg_counter c = 0
    /\ initialized (st c) = false
    /\ trace (st c)
       = trace s1
         ++ [EvSignals; EvNewPoller Q (IsStrict (workerSettings s1));
             EvPoll p (Interval (workerSettings s1))]
         ++ flat_map (worker_events Q jobs mk) (ids N)
         ++ [EvWait monitor; EvPoolClose (pool s1)]
    /\ pools_closed (st c) = S (pools_closed s1)
    /\ pools_built (st c) = pools_built s1.
Proof.
  intros Q jobs.
  set (c1 := goto (AtLoop jobs 0)
               (emit (EvPoll p (Interval (workerSettings s1)))
                  (emit (EvNewPoller Q (IsStrict (workerSettings s1)))
                     (emit EvSignals s1))) (Work_entry s)).
  assert (Hs1 : Work_step E (Work_entry s) = Some c1).
  { unfold Work_step. simpl pc. cbv iota. simpl st. rewrite Hinit.
    cbv zeta. cbn [emit workerSettings]. rewrite Hpoller.
    reflexivity. }
  pose proof (Work_loop_runs E N Q jobs mk Hint Hworkers (Z.to_nat N) 0 c1
                eq_refl ltac:(lia) ltac:(lia) HN eq_refl) as Hloop.
  cbv zeta in Hloop. fold (ids N) in Hloop.
  set (c2 := Work_run E (S (Z.to_nat N)) c1) in *.
  destruct Hloop as (L1 & L2 & L3 & L4 & L5 & L6).
  simpl in L3, L4, L5, L6.
  assert (Hr2 : reachable E (Work_entry s) c2).
  { apply Work_run_reachable. eapply reach_step; [apply reach_here|].
    apply step_Work. exact Hs1. }
  destruct (drain_spec E (Work_entry s) (map mk (ids N)) c2 L4 Hr2)
    as (D1 & D2 & D3 & D4 & D5 & D6 & D7).
  set (c3 := drain (map mk (ids N)) c2) in *.
  assert (Hcnt : wg_counter c3 = 0).
  { rewrite D7, L6, length_map, length_ids. lia. }
  assert (Hs3 : Work_step E c3
                = Some (goto (Returned None)
                          (Close (emit (EvWait monitor) (st c3))) c3)).
  { unfold Work_step. rewrite D6, L1, Hcnt. reflexivity. }
  set (evs := flat_map (worker_events Q jobs mk) (ids N)) in *.
  assert (Hst3 : st c3 = emit_all evs (st c1)) by (rewrite D5; exact L2).
  pose proof (Init_ok_initialized E s s1 Hinit) as Hi1.
  destruct (vars_emit_all evs (st c1)) as [Vp Vi].
  assert (Hclose : Close (emit (EvWait monitor) (st c3))
                   = set_initialized false
                       (emit (EvPoolClose (pool s1))
                          (emit (EvWait monitor) (st c3)))).
  { unfold Close. cbn [emit initialized pool].
    rewrite Hst3, Vi, Vp. simpl. rewrite Hi1. reflexivity. }
  assert (Htr : trace (Close (emit (EvWait monitor) (st c3)))
                = trace s1
                  ++ [EvSignals; EvNewPoller Q (IsStrict (workerSettings s1));
                      EvPoll p (Interval (workerSettings s1))]
                  ++ evs ++ [EvWait monitor; EvPoolClose (pool s1)]).
  { rewrite Hclose. cbn [set_initialized emit trace].
    rewrite Hst3, trace_emit_all. simpl. rewrite <- !app_assoc. simpl.
    reflexivity. }
  destruct (worker_events_no_pool Q jobs mk (ids N)) as [Wn Wc].
  fold evs in Wn, Wc.
  eexists. split.
  { eapply reach_step; [exact D1|]. apply step_Work. exact Hs3. }
  cbn [goto pc started signaled running wg_counter st].
  rewrite D2, D3, D4, L3, L5, Hcnt. simpl app.
  split; [reflexivity|]. split; [reflexivity|]. split; [reflexivity|].
  split; [reflexivity|]. split; [reflexivity|].
  split; [apply Close_uninitialized|].
  split; [exact Htr|].
  unfold pools_closed, pools_built.
  rewrite !(count_app _ s1 _ _ Htr), !filter_app, !length_app, Wn, Wc.
  simpl. split; lia.
Qed.

Lemma Work_can_complete_witness :
  let E := env_failover 0 in
  let s := fresh (sample_settings 3 2 []) in
  exists c,
    reachable E (Work_entry s) c
    /\ pc c = Returned None
    /\ List.length (signaled c) = 3%nat
    /\ running c = []
    /\ pools_built (st c) = 1%nat
    /\ pools_closed (st c) = 1%nat.
Proof.
  intros E s.
  destruct (Work_can_complete E s (snd (Init E s))
              (mkPoller ["a"; "b"]%string true)
              (fun i => mkWorker (Itoa i) ["a"; "b"]%string) 3
              eq_refl eq_refl)
    as (c & H1 & H2 & H3 & H4 & H5 & _ & _ & _ & H9 & H10).
  - unfold GoInt.max_int, GoInt.int_bits. lia.
  - reflexivity.
  - intros i Hi. reflexivity.
  - exists c. split; [exact H1|]. split; [exact H2|].
    split; [rewrite H4, H3; reflexivity|]. split; [exact H5|].
    split; [rewrite H10; reflexivity | rewrite H9; reflexivity].
Defined.

(** X20: what the caller of [GetConn] gets.  [getConn] returns either a
    connection with a nil error or no connection with an error, never both
    and never neither; the connection has passed validation, and the error is
    never a network timeout: timeouts are retried or end in the exhaustion
    error. *)
Theorem getConn_result_shape (E : Env) (a : Z) (s s' : State)
  (r : GetResult)
  (Hret : getConn E a s = Some (r, s')) :
  (exists conn, r = (Some conn, None) /\ validateConnection E conn = true)
  \/ (exists err, r = (None, Some err) /\ is_net_timeout err = false).
Proof.
  revert r s' Hret. pattern a, s. apply getConn_ind; clear a s.
  - intros a s Ha r s' H. rewrite getConn_unfold in H.
    destruct (Z.leb_spec a 0); [|lia]. inversion H; subst.
    right. eexists. split; reflexivity.
  - intros a s Ha IH r s' H. rewrite getConn_unfold in H.
    destruct (Z.leb_spec a 0); [lia|]. cbv zeta in H.
    destruct (pool_Get E (checkouts s)) as [e|c].
    + destruct (is_net_timeout e) eqn:He.
      * eapply IH; exact H.
      * inversion H; subst. right. eauto.
    + destruct (validateConnection E c) eqn:Hv; simpl in H.
      * inversion H; subst. left. eauto.
      * eapply IH; exact H.
Qed.

Lemma getConn_result_shape_witness :
  let E := env_failover 9 in
  let s := booted E (sample_settings 1 2 ["s1:26379"]%string) in
  exists s', GetConn E s = Some (exhausted, s')
             /\ is_net_timeout (errors_New "Unable to get connection") = false.
Proof.
  intros E s. eexists. split; [reflexivity|].
  destruct (getConn_result_shape E 3 s _ exhausted eq_refl)
    as [(conn & Hc & _) | (err & He & Ht)].
  - discriminate.
  - inversion He; subst. exact Ht.
Defined.
